(** * CPPCLITODO: the task list of CPPCLITODO.cpp and its flat-file codec

    A shallow embedding of [src/CPPCLITODO.cpp]: the [Task] class with its
    static id counter, the five menu operations working on a
    [std::vector<Task>], and the two functions that read and write
    [tasks.txt].  The library calls the program relies on ([std::getline],
    [std::stoi], [operator<<] on [int]) are modelled first, then the
    program, then the properties. *)

From Stdlib Require Import ZArith String Ascii List Bool Sorted Lia.
Import ListNotations.

Local Open Scope string_scope.
Local Open Scope Z_scope.

(* ================================================================== *)
(** * The type [int] *)
(* ================================================================== *)

(** [int] is a 32-bit two's-complement integer.  It is carried by [Z]; the
    only arithmetic the program performs on it ([nextId++] and [id + 1])
    goes through [wrap], i.e. is taken modulo [2^32].  C++ leaves the
    overflow of a signed addition undefined; the model takes what the
    compiled addition gives.  Whatever it gave, the result would be an
    [int], hence at most [INT_MAX]. *)
Module Int.

Definition INT_MAX : Z := 2147483647.
Definition INT_MIN : Z := -2147483648.

Definition in_range (z : Z) : Prop := INT_MIN <= z <= INT_MAX.
Definition in_rangeb (z : Z) : bool := (INT_MIN <=? z) && (z <=? INT_MAX).

Definition wrap (z : Z) : Z := (z - INT_MIN) mod 4294967296 + INT_MIN.

Definition succ (z : Z) : Z := wrap (z + 1).

End Int.
Import Int.

(* ================================================================== *)
(** * Characters and strings *)
(* ================================================================== *)

Definition nl_char : ascii := "010"%char.
Definition bar : ascii := "|"%char.

(** The one-character string holding a line feed. *)
Definition nl : string := String nl_char EmptyString.

(** [s.find(c) != npos] *)
Fixpoint contains (c : ascii) (s : string) : bool :=
  match s with
  | EmptyString => false
  | String a r => Ascii.eqb a c || contains c r
  end.

(** [s] ends with [suffix]. *)
Fixpoint ends_with (suffix s : string) : bool :=
  String.eqb s suffix ||
  match s with
  | EmptyString => false
  | String _ r => ends_with suffix r
  end.

(* ================================================================== *)
(** * Input streams and [std::getline] *)
(* ================================================================== *)

(** An input stream ([std::ifstream], [std::stringstream]): the characters
    not yet extracted and the two state bits the program can observe. *)
Record istream : Type := mkIstream {
  buf : string;
  eofbit : bool;
  failbit : bool
}.

(** A stream freshly opened on [s]. *)
Definition istream_of (s : string) : istream :=
  {| buf := s; eofbit := false; failbit := false |}.

Definition good (ins : istream) : bool := negb (eofbit ins || failbit ins).

(** Characters are extracted up to the delimiter, which is extracted and
    thrown away ([Some rest]), or up to the end of the input ([None]). *)
Fixpoint extract (delim : ascii) (s : string) : string * option string :=
  match s with
  | EmptyString => (EmptyString, None)
  | String c r =>
      if Ascii.eqb c delim then (EmptyString, Some r)
      else let (str, rest) := extract delim r in (String c str, rest)
  end.

(** [std::getline(ins, str, delim)], tested as a condition: the first
    component is [Some str] when the stream converts to [true] after the
    call, i.e. when [failbit] is clear.  The sentry fails on a stream that
    is not [good()]; extracting nothing at all (not even a delimiter) sets
    [failbit]; reaching the end of the input sets [eofbit]. *)
Definition getline (ins : istream) (delim : ascii) : option string * istream :=
  if good ins then
    let (str, rest) := extract delim (buf ins) in
    match rest with
    | Some rest =>
        (Some str, {| buf := rest; eofbit := false; failbit := false |})
    | None =>
        match str with
        | EmptyString =>
            (None, {| buf := EmptyString; eofbit := true; failbit := true |})
        | _ =>
            (Some str,
             {| buf := EmptyString; eofbit := true; failbit := false |})
        end
    end
  else
    (None, {| buf := buf ins; eofbit := eofbit ins; failbit := true |}).

(* ================================================================== *)
(** * Exceptions, [std::stoi] and [operator<<] on [int] *)
(* ================================================================== *)

Inductive exception : Type := invalid_argument | out_of_range.

(** The outcome of code that may throw.  Nothing in the program catches an
    exception, so a [Throw] that reaches [main] ends the process through
    [std::terminate]. *)
Inductive result (A : Type) : Type :=
| Ok (a : A)
| Throw (e : exception).
Arguments Ok {A} a.
Arguments Throw {A} e.

Definition isspace (c : ascii) : bool :=
  match N_of_ascii c with
  | 32%N | 9%N | 10%N | 11%N | 12%N | 13%N => true
  | _ => false
  end.

Definition digit_val (c : ascii) : option Z :=
  let n := Z.of_N (N_of_ascii c) in
  if (48 <=? n) && (n <=? 57) then Some (n - 48) else None.

Definition digit_char (d : Z) : ascii :=
  match d with
  | 0 => "0" | 1 => "1" | 2 => "2" | 3 => "3" | 4 => "4"
  | 5 => "5" | 6 => "6" | 7 => "7" | 8 => "8" | _ => "9"
  end%char.

Fixpoint skip_ws (s : string) : string :=
  match s with
  | String c r => if isspace c then skip_ws r else s
  | EmptyString => s
  end.

(** The value of the longest prefix of decimal digits of [s], continuing
    from [acc]. *)
Fixpoint digits_value (acc : Z) (s : string) : Z :=
  match s with
  | EmptyString => acc
  | String c r =>
      match digit_val c with
      | Some d => digits_value (acc * 10 + d) r
      | None => acc
      end
  end.

(** [s] is made of decimal digits only. *)
Fixpoint all_digits (s : string) : bool :=
  match s with
  | EmptyString => true
  | String c r =>
      match digit_val c with
      | Some _ => all_digits r
      | None => false
      end
  end.

(** [std::stoi(s)]: leading white space is skipped, an optional sign is
    read, then as many decimal digits as there are; what follows them is
    ignored.  No digit: [std::invalid_argument].  A value that does not
    fit [int]: [std::out_of_range]. *)
Definition stoi (s : string) : result Z :=
  let s1 := skip_ws s in
  let '(neg, s2) :=
    match s1 with
    | String "-"%char r => (true, r)
    | String "+"%char r => (false, r)
    | _ => (false, s1)
    end in
  match s2 with
  | EmptyString => Throw invalid_argument
  | String c _ =>
      match digit_val c with
      | None => Throw invalid_argument
      | Some _ =>
          let v := digits_value 0 s2 in
          let v := if neg then - v else v in
          if in_rangeb v then Ok v else Throw out_of_range
      end
  end.

(** Decimal digits of [n >= 0], most significant first, pushed in front of
    [acc]; [fuel] bounds the number of divisions by ten. *)
Fixpoint udigits (fuel : nat) (n : Z) (acc : string) : string :=
  let acc' := String (digit_char (n mod 10)) acc in
  match fuel with
  | O => acc'
  | S f => if n <? 10 then acc' else udigits f (n / 10) acc'
  end.

(** What [os << i] appends for an [int i]: a minus sign when negative, then
    the decimal digits, no padding and no separators. *)
Definition to_string (z : Z) : string :=
  let n := Z.abs z in
  let ds := udigits (Z.to_nat (Z.log2 n)) n EmptyString in
  if z <? 0 then String "-"%char ds else ds.

(* ================================================================== *)
(** * Output streams *)
(* ================================================================== *)

(** An output stream ([std::cout], [std::ofstream]) is the text sent to it
    so far; [os << s] appends. *)
Definition put (os s : string) : string := os ++ s.

Declare Scope ostream_scope.
Delimit Scope ostream_scope with os.
Infix "<<" := put (at level 50, left associativity) : ostream_scope.

(* ================================================================== *)
(** * [class Task] *)
(* ================================================================== *)

Record Task : Type := mkTask {
  getId : Z;
  getDescription : string;
  isCompleted : bool
}.

(** [Task(description)]: [id(nextId++), description(description),
    completed(false)].  The second component is the static counter after
    the call. *)
Definition Task_new (description : string) (nextId : Z) : Task * Z :=
  ({| getId := nextId; getDescription := description; isCompleted := false |},
   Int.succ nextId).

Definition setId (t : Task) (id : Z) : Task :=
  {| getId := id; getDescription := getDescription t;
     isCompleted := isCompleted t |}.

Definition setDescription (t : Task) (description : string) : Task :=
  {| getId := getId t; getDescription := description;
     isCompleted := isCompleted t |}.

Definition setCompleted (t : Task) (completed : bool) : Task :=
  {| getId := getId t; getDescription := getDescription t;
     isCompleted := completed |}.

(* ================================================================== *)
(** * The state of the process *)
(* ================================================================== *)

(** What the functions of the program read and change: the vector [tasks]
    of [main], the static [Task::nextId], the file [tasks.txt] ([None] when
    it does not exist), how many times that file has been opened for
    writing, and the text sent to [std::cout]. *)
Record State : Type := mkState {
  tasks : list Task;
  nextId : Z;
  file : option string;
  writes : nat;
  cout : string
}.

Definition set_tasks (l : list Task) (st : State) : State :=
  {| tasks := l; nextId := nextId st; file := file st;
     writes := writes st; cout := cout st |}.

Definition setNextId (n : Z) (st : State) : State :=
  {| tasks := tasks st; nextId := n; file := file st;
     writes := writes st; cout := cout st |}.

Definition print (s : string) (st : State) : State :=
  {| tasks := tasks st; nextId := nextId st; file := file st;
     writes := writes st; cout := (cout st << s)%os |}.

(** The state [main] starts from: an empty vector, [Task::nextId = 1], and
    whatever [tasks.txt] holds. *)
Definition initial (f : option string) : State :=
  {| tasks := []; nextId := 1; file := f; writes := O; cout := EmptyString |}.

(* ================================================================== *)
(** * [saveTasksToFile] and [loadTasksFromFile] *)
(* ================================================================== *)

(** One iteration of the loop of [saveTasksToFile]. *)
Definition write_task (os : string) (t : Task) : string :=
  (os << to_string (getId t) << "|" << getDescription t << "|"
      << (if isCompleted t then "1" else "0") << nl)%os.

(** [std::ofstream file(TASKS_FILE)] truncates the file; the loop writes
    every task; the file is closed.  Opening is taken to succeed. *)
Definition saveTasksToFile (st : State) : State :=
  {| tasks := tasks st; nextId := nextId st;
     file := Some (fold_left write_task (tasks st) EmptyString);
     writes := S (writes st); cout := cout st |}.

(** The condition of the [if] in [loadTasksFromFile]: three chained
    [std::getline] on a [std::stringstream] over the line. *)
Definition split_line (line : string) : option (string * string * string) :=
  let ss := istream_of line in
  let (r1, ss) := getline ss bar in
  match r1 with
  | None => None
  | Some idStr =>
      let (r2, ss) := getline ss bar in
      match r2 with
      | None => None
      | Some desc =>
          let (r3, ss) := getline ss nl_char in
          match r3 with
          | None => None
          | Some completedStr => Some (idStr, desc, completedStr)
          end
      end
  end.

(** The body of the [while] loop of [loadTasksFromFile] for one line. *)
Definition load_line (line : string) (st : State) : result State :=
  match split_line line with
  | None => Ok st
  | Some (idStr, desc, completedStr) =>
      match stoi idStr with
      | Throw e => Throw e
      | Ok id =>
          let completed := String.eqb completedStr "1" in
          let (task, n) := Task_new desc (nextId st) in
          let st := setNextId n st in
          let task := setCompleted task completed in
          let task := setId task id in
          let st := set_tasks (tasks st ++ [task])%list st in
          if id >=? nextId st then Ok (setNextId (wrap (id + 1)) st)
          else Ok st
      end
  end.

(** [while (std::getline(file, line)) { ... }].  Every turn that does not
    leave the loop takes at least one character off the stream, so
    [fuel] above the length of the file is never used up
    (see [load_loop_fuel]). *)
Fixpoint load_loop (fuel : nat) (fs : istream) (st : State) : result State :=
  match fuel with
  | O => Ok st
  | S fuel' =>
      let (r, fs) := getline fs nl_char in
      match r with
      | None => Ok st
      | Some line =>
          match load_line line st with
          | Throw e => Throw e
          | Ok st => load_loop fuel' fs st
          end
      end
  end.

Definition loadTasksFromFile (st : State) : result State :=
  match file st with
  | None => Ok st
  | Some content =>
      load_loop (S (String.length content)) (istream_of content) st
  end.

(* ================================================================== *)
(** * The menu operations *)
(* ================================================================== *)

(** The line printed for a task in every listing. *)
Definition show_task (os : string) (t : Task) : string :=
  (os << "[" << (if isCompleted t then "x" else " ") << "] "
      << to_string (getId t) << ": " << getDescription t << nl)%os.

Definition show_tasks (l : list Task) : string :=
  fold_left show_task l EmptyString.

Definition is_empty (l : list Task) : bool :=
  match l with [] => true | _ => false end.

(** [addTask], [description] being the line read from [std::cin]. *)
Definition addTask (description : string) (st : State) : State :=
  let st := print "Enter task description: " st in
  let (newTask, n) := Task_new description (nextId st) in
  let st := setNextId n st in
  let st := set_tasks (tasks st ++ [newTask])%list st in
  let st := print ("Task added." ++ nl ++ nl) st in
  saveTasksToFile st.

Definition viewTasks (st : State) : State :=
  if is_empty (tasks st) then print ("No tasks to display." ++ nl) st
  else
    print (nl ++ "====== TASK LIST ======" ++ nl ++ show_tasks (tasks st)
              ++ "=======================" ++ nl ++ nl) st.

(** [for (Task& task : tasks) if (task.getId() == id) { ...; return; }]:
    the first task whose id is [id] is changed by [f], in place.  The
    result is the vector and the task after the change, or [None] when the
    loop runs to its end. *)
Fixpoint update_first (id : Z) (f : Task -> Task) (l : list Task)
  : option (list Task * Task) :=
  match l with
  | [] => None
  | task :: r =>
      if getId task =? id then Some (f task :: r, f task)
      else
        match update_first id f r with
        | Some (r', t') => Some (task :: r', t')
        | None => None
        end
  end.

(** [for (auto it = tasks.begin(); ...) if (it->getId() == id)
    { tasks.erase(it); ...; return; }] *)
Fixpoint erase_first (id : Z) (l : list Task) : option (list Task) :=
  match l with
  | [] => None
  | task :: r =>
      if getId task =? id then Some r
      else
        match erase_first id r with
        | Some r' => Some (task :: r')
        | None => None
        end
  end.

Definition not_found_msg (id : Z) : string :=
  "Task with ID " ++ to_string id ++ " not found." ++ nl ++ nl.

(** [toggleTaskComplete]; [input] is what [std::cin >> id] yields, [None]
    when the extraction fails. *)
Definition toggleTaskComplete (input : option Z) (st : State) : State :=
  if is_empty (tasks st) then print ("No tasks to toggle." ++ nl) st
  else
    let st := print (nl ++ "Current tasks:" ++ nl ++ show_tasks (tasks st)
                        ++ nl) st in
    let st := print "Enter the ID of the task to toggle completion: " st in
    match input with
    | None => print ("Invalid input." ++ nl) st
    | Some id =>
        match update_first id
                (fun task => setCompleted task (negb (isCompleted task)))
                (tasks st) with
        | Some (l, task) =>
            let st := set_tasks l st in
            let st := print ("Task " ++ to_string id ++ " marked as "
                        ++ (if isCompleted task then "complete."
                            else "incomplete.") ++ nl ++ nl) st in
            saveTasksToFile st
        | None => print (not_found_msg id) st
        end
    end.

Definition deleteTask (input : option Z) (st : State) : State :=
  if is_empty (tasks st) then print ("No tasks to delete." ++ nl) st
  else
    let st := print (nl ++ "Current tasks:" ++ nl ++ show_tasks (tasks st)) st in
    let st := print "Enter the ID of the task to delete: " st in
    match input with
    | None => print ("Invalid input." ++ nl) st
    | Some id =>
        match erase_first id (tasks st) with
        | Some l =>
            let st := set_tasks l st in
            let st := print ("Task " ++ to_string id ++ " deleted."
                               ++ nl ++ nl) st in
            saveTasksToFile st
        | None => print (not_found_msg id) st
        end
    end.

(** [editTask]; [newDesc] is the line read from [std::cin] once the task
    has been found. *)
Definition editTask (input : option Z) (newDesc : string) (st : State)
  : State :=
  if is_empty (tasks st) then print ("No tasks to edit." ++ nl) st
  else
    let st := print (nl ++ "Current tasks:" ++ nl ++ show_tasks (tasks st)
                        ++ nl) st in
    let st := print "Enter the ID of the task to edit: " st in
    match input with
    | None => print ("Invalid input." ++ nl) st
    | Some id =>
        match update_first id (fun task => setDescription task newDesc)
                (tasks st) with
        | Some (l, _) =>
            let st := print "Enter new description: " st in
            let st := set_tasks l st in
            let st := print ("Task " ++ to_string id ++ " updated."
                               ++ nl ++ nl) st in
            saveTasksToFile st
        | None => print (not_found_msg id) st
        end
    end.

(* ================================================================== *)
(** * [main] *)
(* ================================================================== *)

(** A valid menu selection other than 6, with what the operation goes on
    to read from [std::cin]. *)
Inductive command : Type :=
| Add (description : string)
| View
| Toggle (input : option Z)
| Delete (input : option Z)
| Edit (input : option Z) (newDesc : string).

Definition printMenu (st : State) : State :=
  print ("====== TODO MENU ======" ++ nl
         ++ "1. Add a task" ++ nl
         ++ "2. View all tasks" ++ nl
         ++ "3. Toggle task as complete/incomplete" ++ nl
         ++ "4. Delete a task" ++ nl
         ++ "5. Edit a task description" ++ nl
         ++ "6. Exit" ++ nl
         ++ "=======================" ++ nl) st.

(** The [switch] of [main]. *)
Definition dispatch (c : command) (st : State) : State :=
  match c with
  | Add description => addTask description st
  | View => viewTasks st
  | Toggle input => toggleTaskComplete input st
  | Delete input => deleteTask input st
  | Edit input newDesc => editTask input newDesc st
  end.

(** One turn of the loop of [main] on a valid selection. *)
Definition turn (st : State) (c : command) : State :=
  dispatch c (printMenu st).

(** [main] up to the selection of 6: the file is loaded, the commands are
    served in order, then the process exits with status 0. *)
Definition main (f : option string) (cmds : list command) : result State :=
  match loadTasksFromFile (initial f) with
  | Throw e => Throw e
  | Ok st =>
      Ok (print ("Exiting... " ++ nl) (printMenu (fold_left turn cmds st)))
  end.

(* ================================================================== *)
(** * Notions used in the statements *)
(* ================================================================== *)

Definition ids (l : list Task) : list Z := map getId l.

(** The counter after one turn of the loop of [loadTasksFromFile] that
    loads a record with id [id]: the constructor has incremented it, then
    the [if] after [push_back] may set it to [id + 1]. *)
Definition bump (id n : Z) : Z :=
  let n := Int.succ n in
  if id >=? n then wrap (id + 1) else n.

(** The state after that turn. *)
Definition loaded (id : Z) (desc : string) (completed : bool) (st : State)
  : State :=
  {| tasks := (tasks st ++ [mkTask id desc completed])%list;
     nextId := bump id (nextId st);
     file := file st; writes := writes st; cout := cout st |}.

(** The value the counter takes over the ids of the records loaded, in
    unbounded arithmetic. *)
Fixpoint next_after (n : Z) (l : list Z) : Z :=
  match l with
  | [] => n
  | id :: r => next_after (Z.max (n + 1) (id + 1)) r
  end.

(** The storage format in the words of the specification: a task is three
    fields joined by the delimiter, the file is one such line per task. *)
Definition flag (b : bool) : string := if b then "1" else "0".

Definition encode_task (t : Task) : string :=
  String.concat "|"
    [to_string (getId t); getDescription t; flag (isCompleted t)].

Fixpoint encode_tasks (l : list Task) : string :=
  match l with
  | [] => EmptyString
  | t :: r => encode_task t ++ nl ++ encode_tasks r
  end.

(** The fields of a line, split at every delimiter. *)
Fixpoint split (delim : ascii) (s : string) : list string :=
  match s with
  | EmptyString => [EmptyString]
  | String c r =>
      if Ascii.eqb c delim then EmptyString :: split delim r
      else
        match split delim r with
        | f :: fs => String c f :: fs
        | [] => [String c EmptyString]
        end
  end.

(** A task whose id is an [int] and whose description holds neither the
    delimiter nor a line feed. *)
Definition storable (t : Task) : Prop :=
  in_range (getId t) /\
  contains bar (getDescription t) = false /\
  contains nl_char (getDescription t) = false.

(** Saving the tasks of [st] and loading the file in a new process gives
    the same tasks. *)
Definition round_trips (st : State) : Prop :=
  exists st',
    loadTasksFromFile (initial (file (saveTasksToFile st))) = Ok st' /\
    tasks st' = tasks st.

(** [addTask] once for each description; the first component collects the
    task each call has put at the back of the vector. *)
Fixpoint addTasks (descs : list string) (st : State) : list Task * State :=
  match descs with
  | [] => ([], st)
  | d :: r =>
      let st1 := addTask d st in
      let (created, st2) := addTasks r st1 in
      (last (tasks st1) (mkTask 0 EmptyString false) :: created, st2)
  end.

(** [k] consecutive integers from [n] on. *)
Fixpoint count_from (n : Z) (k : nat) : list Z :=
  match k with
  | O => []
  | S k' => n :: count_from (n + 1) k'
  end.

(** The ids of the store are pairwise distinct and all below the counter,
    which is an [int]. *)
Definition distinct_below (st : State) : Prop :=
  NoDup (ids (tasks st)) /\
  in_range (nextId st) /\
  Forall (fun i => i < nextId st) (ids (tasks st)).

(** The operation ended on its not-found message. *)
Definition reports_not_found (id : Z) (st : State) : bool :=
  ends_with (not_found_msg id) (cout st).

(* ================================================================== *)
(** * [getMenuInput] *)
(* ================================================================== *)

Definition invalid_choice_msg : string := "Invalid input. Try again." ++ nl.

(** [getMenuInput].  [attempts] is what the successive [std::cin >> choice]
    yield, [None] when the extraction fails.  Each turn of the loop prints
    the menu; a choice from 1 to 6 is returned, together with the attempts
    not yet used; anything else is reported and the loop goes on.  [None]
    as a result: the attempts are used up and no choice has been valid, the
    loop has not returned. *)
Fixpoint getMenuInput (attempts : list (option Z)) (st : State)
  : option (Z * list (option Z) * State) :=
  match attempts with
  | [] => None
  | a :: rest =>
      let st := printMenu st in
      match a with
      | Some choice =>
          if (1 <=? choice) && (choice <=? 6) then Some (choice, rest, st)
          else getMenuInput rest (print invalid_choice_msg st)
      | None => getMenuInput rest (print invalid_choice_msg st)
      end
  end.

(** The selection is one [getMenuInput] returns. *)
Definition valid_choice (a : option Z) : bool :=
  match a with
  | Some choice => (1 <=? choice) && (choice <=? 6)
  | None => false
  end.

(** The text [printMenu] prints. *)
Definition menu_text : string := cout (printMenu (initial None)).

(** [s] written [n] times. *)
Fixpoint times (n : nat) (s : string) : string :=
  match n with
  | O => EmptyString
  | S n' => s ++ times n' s
  end.

(** The vector after the loop of [toggleTaskComplete] or [editTask]. *)
Definition updated (id : Z) (f : Task -> Task) (l : list Task) : list Task :=
  match update_first id f l with
  | Some (l', _) => l'
  | None => l
  end.

(* ================================================================== *)
(** * Notions used in the further properties *)
(* ================================================================== *)

(** The lines of a text: the pieces ended by a line feed, and the piece
    after the last line feed when it is not empty. *)
Fixpoint file_lines (s : string) : list string :=
  match s with
  | EmptyString => []
  | String c r =>
      if Ascii.eqb c nl_char then EmptyString :: file_lines r
      else
        match file_lines r with
        | l :: ls => String c l :: ls
        | [] => [String c EmptyString]
        end
  end.

(** Lines put one after the other, a line feed after each. *)
Fixpoint unlines (ls : list string) : string :=
  match ls with
  | [] => EmptyString
  | l :: r => l ++ nl ++ unlines r
  end.

(** The body of the loop of [loadTasksFromFile] run on each line in turn,
    up to the first exception. *)
Fixpoint load_lines (ls : list string) (st : State) : result State :=
  match ls with
  | [] => Ok st
  | line :: r =>
      match load_line line st with
      | Throw e => Throw e
      | Ok st => load_lines r st
      end
  end.

(** The line does not make the loop throw: it does not pass the
    condition of the [if], or [std::stoi] accepts its first field. *)
Definition line_loads (line : string) : bool :=
  match split_line line with
  | None => true
  | Some (idStr, _, _) =>
      match stoi idStr with
      | Ok _ => true
      | Throw _ => false
      end
  end.

(** What a task comes back as after it has been saved and loaded: the
    description is cut at its first delimiter, and a task whose description
    held a delimiter is not completed. *)
Definition reload_task (t : Task) : Task :=
  {| getId := getId t;
     getDescription := fst (extract bar (getDescription t));
     isCompleted := if contains bar (getDescription t) then false
                    else isCompleted t |}.

(** [s] is made of white space only. *)
Fixpoint all_space (s : string) : bool :=
  match s with
  | EmptyString => true
  | String c r => isspace c && all_space r
  end.

(** [s] is empty or starts with a character that is not a digit. *)
Definition no_digit_ahead (s : string) : bool :=
  match s with
  | EmptyString => true
  | String c _ =>
      match digit_val c with
      | Some _ => false
      | None => true
      end
  end.

(** The entry of a task in a listing: a mark, the id, the description. *)
Definition listing_entry (t : Task) : string :=
  "[" ++ (if isCompleted t then "x" else " ") ++ "] "
      ++ to_string (getId t) ++ ": " ++ getDescription t.

(** The number of selections of [addTask] among the commands. *)
Fixpoint count_adds (cmds : list command) : nat :=
  match cmds with
  | [] => O
  | Add _ :: r => S (count_adds r)
  | _ :: r => count_adds r
  end.

(** The first field of a line that splits into at least three fields at
    the delimiter, unless the line ends on its second delimiter (a third
    field that is empty and the last). *)
Definition id_field (line : string) : option string :=
  match split bar line with
  | f1 :: _ :: f3 :: rest =>
      match f3, rest with
      | EmptyString, [] => None
      | _, _ => Some f1
      end
  | _ => None
  end.

(** The line has no id field, or one that [std::stoi] accepts. *)
Definition line_accepted (line : string) : bool :=
  match id_field line with
  | None => true
  | Some f1 =>
      match stoi f1 with
      | Ok _ => true
      | Throw _ => false
      end
  end.

(** The two states agree on everything but [std::cout]. *)
Definition same_store (st st' : State) : Prop :=
  tasks st' = tasks st /\ nextId st' = nextId st /\
  file st' = file st /\ writes st' = writes st.

(* ================================================================== *)
(** * Properties of the library model *)
(* ================================================================== *)

Lemma append_assoc (a b c : string) : (a ++ b) ++ c = a ++ (b ++ c).
Proof. induction a as [|x a IH]; simpl; [reflexivity | now rewrite IH]. Qed.

Lemma append_nil_r (a : string) : a ++ EmptyString = a.
Proof. induction a as [|x a IH]; simpl; [reflexivity | now rewrite IH]. Qed.

Lemma in_rangeb_iff z : in_rangeb z = true <-> in_range z.
Proof.
  unfold in_rangeb, in_range. rewrite andb_true_iff, !Z.leb_le. tauto.
Qed.

Lemma wrap_in_range z : in_range z -> wrap z = z.
Proof.
  unfold in_range, wrap, INT_MIN, INT_MAX. intros H.
  rewrite Z.mod_small; lia.
Qed.

Lemma wrap_range z : in_range (wrap z).
Proof.
  unfold in_range, wrap, INT_MIN, INT_MAX.
  pose proof (Z.mod_pos_bound (z - -2147483648) 4294967296 eq_refl). lia.
Qed.

Lemma succ_small z : in_range z -> z < INT_MAX -> succ z = z + 1.
Proof.
  unfold succ, in_range. intros H1 H2. apply wrap_in_range.
  unfold in_range. lia.
Qed.

Lemma digit_cases d :
  0 <= d < 10 ->
  d = 0 \/ d = 1 \/ d = 2 \/ d = 3 \/ d = 4 \/
  d = 5 \/ d = 6 \/ d = 7 \/ d = 8 \/ d = 9.
Proof. lia. Qed.

Ltac each_digit d H :=
  destruct (digit_cases d H) as
    [->|[->|[->|[->|[->|[->|[->|[->|[->| ->]]]]]]]]].

Lemma digit_val_char d : 0 <= d < 10 -> digit_val (digit_char d) = Some d.
Proof. intros H. each_digit d H; reflexivity. Qed.

Lemma digit_char_not c d :
  0 <= d < 10 -> digit_val c = None -> Ascii.eqb (digit_char d) c = false.
Proof.
  intros H Hc. destruct (Ascii.eqb_spec (digit_char d) c) as [<-|]; auto.
  rewrite digit_val_char in Hc by assumption. discriminate.
Qed.

Lemma mod10_range n : 0 <= n mod 10 < 10.
Proof. apply Z.mod_pos_bound. lia. Qed.

Lemma udigits_value fuel : forall n rest,
  0 <= n < 10 ^ Z.of_nat (S fuel) ->
  digits_value 0 (udigits fuel n rest) = digits_value n rest.
Proof.
  induction fuel as [|f IH]; intros n rest Hn.
  - change (10 ^ Z.of_nat 1) with 10 in Hn. simpl.
    rewrite digit_val_char by apply mod10_range.
    rewrite Z.mod_small by lia. reflexivity.
  - cbn [udigits]. destruct (Z.ltb_spec n 10) as [Hlt|Hge].
    + simpl. rewrite digit_val_char by apply mod10_range.
      rewrite Z.mod_small by lia. reflexivity.
    + rewrite IH.
      * simpl. rewrite digit_val_char by apply mod10_range.
        f_equal. pose proof (Z.div_mod n 10). lia.
      * split; [apply Z.div_pos; lia|].
        apply Z.div_lt_upper_bound; [lia|].
        replace (Z.of_nat (S (S f))) with (Z.succ (Z.of_nat (S f))) in Hn by lia.
        rewrite Z.pow_succ_r in Hn by lia. lia.
Qed.

(** The characters [udigits] puts in front of [acc] are digits, and there
    is at least one. *)
Lemma all_digits_app a b :
  all_digits a = true -> all_digits b = true -> all_digits (a ++ b) = true.
Proof.
  induction a as [|c a IH]; simpl; auto.
  destruct (digit_val c); [auto | discriminate].
Qed.

Lemma udigits_shape fuel : forall n acc,
  exists c ds, udigits fuel n acc = String c ds ++ acc /\
    all_digits (String c ds) = true.
Proof.
  assert (Hone : forall n, all_digits (String (digit_char (n mod 10)) "") = true).
  { intros n. simpl. now rewrite digit_val_char by apply mod10_range. }
  induction fuel as [|f IH]; intros n acc.
  - exists (digit_char (n mod 10)), EmptyString. split; [reflexivity | apply Hone].
  - cbn [udigits]. destruct (n <? 10).
    + exists (digit_char (n mod 10)), EmptyString.
      split; [reflexivity | apply Hone].
    + destruct (IH (n / 10) (String (digit_char (n mod 10)) acc))
        as (c & ds & E & Hds).
      exists c, (ds ++ String (digit_char (n mod 10)) EmptyString). split.
      * rewrite E. change (String c ?x ++ ?y) with (String c (x ++ y)).
        now rewrite append_assoc.
      * change (all_digits ((String c ds) ++ String (digit_char (n mod 10)) "") = true).
        apply all_digits_app; [assumption | apply Hone].
Qed.

Lemma log2_fuel n : 0 <= n -> n < 10 ^ Z.of_nat (S (Z.to_nat (Z.log2 n))).
Proof.
  intros Hn. pose proof (Z.log2_nonneg n) as Hl.
  replace (Z.of_nat (S (Z.to_nat (Z.log2 n)))) with (Z.succ (Z.log2 n)) by lia.
  destruct (Z.eq_dec n 0) as [->|Hnz].
  - reflexivity.
  - apply Z.lt_le_trans with (2 ^ Z.succ (Z.log2 n)).
    + apply Z.log2_spec. lia.
    + apply Z.pow_le_mono_l. lia.
Qed.

Lemma all_digits_contains c s :
  all_digits s = true -> digit_val c = None -> contains c s = false.
Proof.
  intros Hs Hc. induction s as [|a s IH]; simpl in *; [reflexivity|].
  destruct (digit_val a) eqn:Ea; [|discriminate].
  destruct (Ascii.eqb_spec a c) as [->|_]; [congruence | auto].
Qed.

(** [std::stoi] on a string that starts with a digit, and on one that
    starts with a minus sign and a digit. *)
Lemma stoi_digit c r :
  digit_val c <> None ->
  stoi (String c r) =
    let v := digits_value 0 (String c r) in
    if in_rangeb v then Ok v else Throw out_of_range.
Proof.
  intros H.
  destruct c as [[] [] [] [] [] [] [] []];
    try (exfalso; apply H; reflexivity); reflexivity.
Qed.

Lemma stoi_minus_digit c r :
  digit_val c <> None ->
  stoi (String "-" (String c r)) =
    let v := - digits_value 0 (String c r) in
    if in_rangeb v then Ok v else Throw out_of_range.
Proof.
  intros H.
  destruct c as [[] [] [] [] [] [] [] []];
    try (exfalso; apply H; reflexivity); reflexivity.
Qed.

(** The text [operator<<] writes for an [int]: an optional minus sign and
    the decimal digits of the absolute value. *)
Lemma to_string_spec z :
  exists c ds,
    to_string z = (if z <? 0 then "-" else "") ++ String c ds /\
    all_digits (String c ds) = true /\
    digits_value 0 (String c ds) = Z.abs z.
Proof.
  unfold to_string.
  destruct (udigits_shape (Z.to_nat (Z.log2 (Z.abs z))) (Z.abs z) "")
    as (c & ds & E & Hds).
  exists c, ds. rewrite append_nil_r in E. repeat split.
  - rewrite E. now destruct (z <? 0).
  - assumption.
  - rewrite <- E, udigits_value.
    + reflexivity.
    + split; [apply Z.abs_nonneg | apply log2_fuel, Z.abs_nonneg].
Qed.

(** Reading back what was written for an [int] gives the same [int]. *)
Lemma stoi_to_string z : in_range z -> stoi (to_string z) = Ok z.
Proof.
  intros Hz. destruct (to_string_spec z) as (c & ds & E & Hds & Hv).
  assert (Hc : digit_val c <> None).
  { simpl in Hds. destruct (digit_val c); [discriminate | discriminate]. }
  rewrite E. destruct (Z.ltb_spec z 0) as [Hneg|Hpos]; simpl append.
  - rewrite stoi_minus_digit by assumption. cbv zeta. rewrite Hv.
    replace (- Z.abs z) with z by lia.
    apply in_rangeb_iff in Hz. now rewrite Hz.
  - rewrite stoi_digit by assumption. cbv zeta. rewrite Hv.
    replace (Z.abs z) with z by lia.
    apply in_rangeb_iff in Hz. now rewrite Hz.
Qed.

Lemma stoi_in_range s z : stoi s = Ok z -> in_range z.
Proof.
  unfold stoi. destruct (skip_ws s) as [|a r].
  - discriminate.
  - set (p := match a with
              | "-"%char => (true, r) | "+"%char => (false, r)
              | _ => (false, String a r) end).
    destruct p as [neg [|c s2]]; [discriminate|].
    destruct (digit_val c); [|discriminate].
    cbv zeta. destruct (in_rangeb _) eqn:E; [|discriminate].
    intros [= <-]. now apply in_rangeb_iff.
Qed.

(** Neither the delimiter nor a line feed occurs in what is written for an
    [int]. *)
Lemma to_string_contains c z :
  digit_val c = None -> c <> "-"%char -> contains c (to_string z) = false.
Proof.
  intros Hc Hm. destruct (to_string_spec z) as (a & ds & E & Hds & _).
  rewrite E. set (body := String a ds) in *. clearbody body.
  destruct (z <? 0); simpl append.
  - cbn [contains]. destruct (Ascii.eqb_spec "-"%char c) as [<-|_];
      [congruence|]. simpl orb. now apply all_digits_contains.
  - now apply all_digits_contains.
Qed.

(* ------------------------------------------------------------------ *)
(** ** [extract] and [getline] *)

Lemma extract_app d pre rest :
  contains d pre = false ->
  extract d (pre ++ String d rest) = (pre, Some rest).
Proof.
  induction pre as [|a pre IH]; simpl; intros H.
  - now rewrite Ascii.eqb_refl.
  - apply orb_false_iff in H as [Ha H]. rewrite Ha, (IH H). reflexivity.
Qed.

Lemma extract_all d s : contains d s = false -> extract d s = (s, None).
Proof.
  induction s as [|a s IH]; simpl; intros H; [reflexivity|].
  apply orb_false_iff in H as [Ha H]. rewrite Ha, (IH H). reflexivity.
Qed.

(** What [extract] takes off a stream and what it leaves add up to the
    input, less the delimiter. *)
Lemma extract_length d s :
  match extract d s with
  | (str, Some rest) => String.length s = S (String.length str + String.length rest)
  | (str, None) => str = s
  end.
Proof.
  induction s as [|a s IH]; simpl; [reflexivity|].
  destruct (Ascii.eqb a d); [reflexivity|].
  destruct (extract d s) as [str [rest|]]; simpl.
  - now rewrite IH.
  - now rewrite IH.
Qed.

Lemma getline_app d pre rest :
  contains d pre = false ->
  getline (istream_of (pre ++ String d rest)) d = (Some pre, istream_of rest).
Proof.
  intros H. unfold getline, good, istream_of; cbn [buf eofbit failbit orb negb].
  rewrite extract_app by assumption. reflexivity.
Qed.

Lemma getline_last d s :
  contains d s = false -> s <> EmptyString ->
  fst (getline (istream_of s) d) = Some s.
Proof.
  intros H Hne. unfold getline, good, istream_of; cbn [buf eofbit failbit orb negb].
  rewrite extract_all by assumption.
  destruct s; [congruence | reflexivity].
Qed.

(* ================================================================== *)
(** * Properties of the program *)
(* ================================================================== *)

Lemma length_append a b :
  String.length (a ++ b) = (String.length a + String.length b)%nat.
Proof. induction a as [|c a IH]; simpl; [reflexivity | now rewrite IH]. Qed.

Lemma contains_app c a b : contains c (a ++ b) = contains c a || contains c b.
Proof.
  induction a as [|x a IH]; simpl; [reflexivity|].
  now rewrite IH, orb_assoc.
Qed.

Lemma ends_with_app msg a : ends_with msg (a ++ msg) = true.
Proof.
  induction a as [|c a IH]; simpl.
  - destruct msg; simpl; now rewrite ?String.eqb_refl, ?Ascii.eqb_refl.
  - rewrite IH. apply orb_true_r.
Qed.

(* ------------------------------------------------------------------ *)
(** ** Writing the file *)

Lemma write_task_eq os t : write_task os t = os ++ encode_task t ++ nl.
Proof.
  unfold write_task, encode_task, put, flag. cbn [String.concat].
  now rewrite !append_assoc.
Qed.

Lemma fold_write_task l : forall os,
  fold_left write_task l os = os ++ encode_tasks l.
Proof.
  induction l as [|t l IH]; intros os; simpl.
  - now rewrite append_nil_r.
  - now rewrite IH, write_task_eq, !append_assoc.
Qed.

Lemma file_save st : file (saveTasksToFile st) = Some (encode_tasks (tasks st)).
Proof. unfold saveTasksToFile; simpl. now rewrite fold_write_task. Qed.

Lemma encode_task_no_nl t :
  contains nl_char (getDescription t) = false ->
  contains nl_char (encode_task t) = false.
Proof.
  intros H. unfold encode_task. cbn [String.concat].
  rewrite !contains_app, H, to_string_contains by (reflexivity || discriminate).
  now destruct (isCompleted t).
Qed.

Lemma encode_tasks_length l :
  (length l <= String.length (encode_tasks l))%nat.
Proof.
  induction l as [|t l IH]; simpl; [lia|].
  rewrite !length_append. simpl. lia.
Qed.

(* ------------------------------------------------------------------ *)
(** ** Reading one line *)

Lemma split_line_fields a b c :
  contains bar a = false -> contains bar b = false ->
  contains nl_char c = false -> c <> EmptyString ->
  split_line (a ++ "|" ++ b ++ "|" ++ c) = Some (a, b, c).
Proof.
  intros Ha Hb Hc Hne. unfold split_line.
  change (a ++ "|" ++ b ++ "|" ++ c)
    with (a ++ String bar (b ++ String bar c)).
  rewrite (getline_app bar a) by assumption.
  rewrite (getline_app bar b) by assumption.
  pose proof (getline_last nl_char c Hc Hne) as E.
  destruct (getline (istream_of c) nl_char) as [r3 ss]. simpl in E.
  now rewrite E.
Qed.

(** [load_line], case by case. *)
Lemma load_line_cases line st :
  load_line line st =
    match split_line line with
    | None => Ok st
    | Some (idStr, desc, completedStr) =>
        match stoi idStr with
        | Throw e => Throw e
        | Ok id => Ok (loaded id desc (String.eqb completedStr "1") st)
        end
    end.
Proof.
  unfold load_line. destruct (split_line line) as [[[idStr desc] cs]|]; auto.
  destruct (stoi idStr) as [id|e]; auto.
  unfold loaded, bump, Task_new, setNextId, set_tasks, setId, setCompleted.
  cbn. destruct (id >=? Int.succ (nextId st)); reflexivity.
Qed.

Lemma flag_eqb b : String.eqb (flag b) "1" = b.
Proof. now destruct b. Qed.

Lemma load_line_encoded t st :
  storable t -> load_line (encode_task t) st =
    Ok (loaded (getId t) (getDescription t) (isCompleted t) st).
Proof.
  intros (Hid & Hbar & Hnl). rewrite load_line_cases.
  unfold encode_task. cbn [String.concat].
  rewrite split_line_fields.
  - now rewrite stoi_to_string, flag_eqb.
  - apply to_string_contains; [reflexivity | discriminate].
  - assumption.
  - now destruct (isCompleted t).
  - destruct (isCompleted t); discriminate.
Qed.

(* ------------------------------------------------------------------ *)
(** ** The loop of [loadTasksFromFile] *)

Lemma getline_shrinks fs d line fs' :
  getline fs d = (Some line, fs') ->
  (String.length (buf fs') < String.length (buf fs))%nat.
Proof.
  unfold getline. destruct (good fs); [|discriminate].
  pose proof (extract_length d (buf fs)) as H.
  destruct (extract d (buf fs)) as [str [rest|]].
  - intros [= _ <-]. simpl. lia.
  - destruct str as [|c str]; [discriminate|].
    intros [= _ <-]. rewrite <- H. simpl. lia.
Qed.

(** Fuel above the number of characters left on the stream is never used
    up: more of it changes nothing. *)
Lemma load_loop_fuel n : forall m fs st,
  (String.length (buf fs) < n)%nat -> (n <= m)%nat ->
  load_loop m fs st = load_loop n fs st.
Proof.
  induction n as [|n IH]; intros m fs st Hlen Hle; [lia|].
  destruct m as [|m]; [lia|]. simpl.
  destruct (getline fs nl_char) as [[line|] fs'] eqn:E; [|reflexivity].
  destruct (load_line line st) as [st1|e]; [|reflexivity].
  apply getline_shrinks in E. apply IH; lia.
Qed.

Lemma loadTasksFromFile_fuel st content m :
  file st = Some content -> (String.length content < m)%nat ->
  load_loop m (istream_of content) st = loadTasksFromFile st.
Proof.
  intros E Hm. unfold loadTasksFromFile. rewrite E.
  destruct (Nat.le_gt_cases m (S (String.length content))).
  - symmetry. apply load_loop_fuel; [exact Hm | assumption].
  - apply load_loop_fuel; [simpl; lia | lia].
Qed.

(** Loading the text written for [l] appends [l] to the vector. *)
Lemma load_loop_encoded l : forall fuel st,
  (length l < fuel)%nat -> Forall storable l ->
  exists st',
    load_loop fuel (istream_of (encode_tasks l)) st = Ok st' /\
    tasks st' = (tasks st ++ l)%list.
Proof.
  induction l as [|t l IH]; intros fuel st Hfuel Hl.
  - destruct fuel as [|fuel]; [simpl in Hfuel; lia|].
    exists st. split; [reflexivity | now rewrite app_nil_r].
  - destruct fuel as [|fuel]; [simpl in Hfuel; lia|].
    inversion Hl as [|? ? Ht Hl']; subst.
    cbn [load_loop encode_tasks].
    change (encode_task t ++ nl ++ encode_tasks l)
      with (encode_task t ++ String nl_char (encode_tasks l)).
    rewrite getline_app by (apply encode_task_no_nl, Ht).
    rewrite load_line_encoded by assumption.
    destruct (IH fuel (loaded (getId t) (getDescription t) (isCompleted t) st))
      as (st' & E & Htasks); [simpl in Hfuel; lia | assumption |].
    exists st'. split; [assumption|].
    rewrite Htasks. simpl. rewrite <- app_assoc. now destruct t.
Qed.

(* ================================================================== *)
(** * The storage format *)
(* ================================================================== *)

(** C7.  [saveTasksToFile] replaces the contents of [tasks.txt] by one
    record per task, in the order of the vector, each record being the id,
    the description and the completed flag joined by ['|'] and ended by a
    line feed; the flag is written ["1"] or ["0"]; the id is written in
    decimal (an optional minus sign, then digits whose value is the
    absolute value of the id).  In the scenario of the specification,
    toggling task 1 of [{1,"A",false}; {2,"B",true}] leaves the file
    holding [1|A|1] and [2|B|1].  A description read by [std::getline]
    holds no line feed, and the record of such a task is a single line. *)
Theorem save_writes_one_line_per_task :
  (forall st,
     file (saveTasksToFile st) = Some (encode_tasks (tasks st)) /\
     writes (saveTasksToFile st) = S (writes st) /\
     tasks (saveTasksToFile st) = tasks st) /\
  (forall t,
     encode_task t =
       to_string (getId t) ++ "|" ++ getDescription t ++ "|"
         ++ (if isCompleted t then "1" else "0")) /\
  (forall z, exists c ds,
     to_string z = (if z <? 0 then "-" else "") ++ String c ds /\
     all_digits (String c ds) = true /\
     digits_value 0 (String c ds) = Z.abs z) /\
  file (toggleTaskComplete (Some 1)
          (set_tasks [mkTask 1 "A" false; mkTask 2 "B" true] (initial None)))
    = Some ("1|A|1" ++ nl ++ "2|B|1" ++ nl) /\
  (forall t,
     contains nl_char (getDescription t) = false ->
     contains nl_char (encode_task t) = false).
Proof.
  split; [|split; [|split; [|split]]].
  - intros st. split; [apply file_save | split; reflexivity].
  - reflexivity.
  - apply to_string_spec.
  - reflexivity.
  - apply encode_task_no_nl.
Qed.

Lemma save_writes_one_line_per_task_witness :
  contains nl_char (getDescription (mkTask 2 "Finish C++ project" true))
    = false /\
  encode_task (mkTask 2 "Finish C++ project" true) = "2|Finish C++ project|1" /\
  contains nl_char (encode_task (mkTask 2 "Finish C++ project" true)) = false.
Proof.
  assert (H : contains nl_char
                (getDescription (mkTask 2 "Finish C++ project" true)) = false)
    by reflexivity.
  destruct save_writes_one_line_per_task as (_ & E & _ & _ & L).
  split; [exact H | split; [rewrite E; reflexivity | exact (L _ H)]].
Defined.

(** C1, as the program has it.  Saving a vector of tasks and loading the
    file in a new process gives back the same vector, same ids,
    descriptions and flags in the same order, provided no description holds
    the delimiter ['|'] or a line feed (ids being [int]s). *)
Theorem save_load_round_trip st :
  Forall storable (tasks st) -> round_trips st.
Proof.
  intros H. unfold round_trips, loadTasksFromFile.
  rewrite file_save. cbn [file initial].
  destruct (load_loop_encoded (tasks st)
              (S (String.length (encode_tasks (tasks st))))
              (initial (Some (encode_tasks (tasks st)))))
    as (st' & E & Ht); [|assumption|].
  - pose proof (encode_tasks_length (tasks st)). lia.
  - exists st'. split; [exact E | exact Ht].
Qed.

Lemma save_load_round_trip_witness :
  Forall storable [mkTask 1 "Take out trash" false; mkTask (-2) "" true] /\
  round_trips
    (set_tasks [mkTask 1 "Take out trash" false; mkTask (-2) "" true]
       (initial None)).
Proof.
  assert (H : Forall storable
                [mkTask 1 "Take out trash" false; mkTask (-2) "" true]).
  { repeat constructor; unfold in_range, INT_MIN, INT_MAX; simpl; lia. }
  split; [exact H | apply save_load_round_trip; exact H].
Defined.

(** C1 as stated fails: the description ["a|b"] is saved as [1|a|b|1] and
    comes back as the task [{1, "a", false}]. *)
Lemma round_trip_fails_on_delimiter :
  ~ round_trips (set_tasks [mkTask 1 "a|b" true] (initial None)).
Proof.
  intros (st' & E & Ht). vm_compute in E.
  injection E as <-. discriminate Ht.
Qed.

(* ================================================================== *)
(** * Toggling, editing and deleting *)
(* ================================================================== *)

Section Loops.

Variable id : Z.

Lemma update_first_absent f l :
  ~ In id (ids l) -> update_first id f l = None.
Proof.
  induction l as [|t l IH]; simpl; intros H; [reflexivity|].
  destruct (Z.eqb_spec (getId t) id) as [E|_]; [tauto|].
  rewrite IH; tauto.
Qed.

Lemma erase_first_absent l : ~ In id (ids l) -> erase_first id l = None.
Proof.
  induction l as [|t l IH]; simpl; intros H; [reflexivity|].
  destruct (Z.eqb_spec (getId t) id) as [E|_]; [tauto|].
  rewrite IH; tauto.
Qed.

(** The loop stops at the first task with the id looked for. *)
Lemma update_first_at f l1 t l2 :
  ~ In id (ids l1) -> getId t = id ->
  update_first id f (l1 ++ t :: l2) = Some (l1 ++ f t :: l2, f t)%list.
Proof.
  intros H1 Ht. induction l1 as [|a l1 IH]; simpl in *.
  - now rewrite Ht, Z.eqb_refl.
  - destruct (Z.eqb_spec (getId a) id) as [E|_]; [tauto|].
    rewrite IH; tauto.
Qed.

Lemma erase_first_at l1 t l2 :
  ~ In id (ids l1) -> getId t = id ->
  erase_first id (l1 ++ t :: l2) = Some (l1 ++ l2)%list.
Proof.
  intros H1 Ht. induction l1 as [|a l1 IH]; simpl in *.
  - now rewrite Ht, Z.eqb_refl.
  - destruct (Z.eqb_spec (getId a) id) as [E|_]; [tauto|].
    rewrite IH; tauto.
Qed.

(** A vector that holds the id splits at its first occurrence. *)
Lemma first_occurrence l :
  In id (ids l) ->
  exists l1 t l2,
    l = (l1 ++ t :: l2)%list /\ getId t = id /\ ~ In id (ids l1).
Proof.
  induction l as [|a l IH]; simpl; intros H; [contradiction|].
  destruct (Z.eq_dec (getId a) id) as [E|N].
  - exists [], a, l. simpl. tauto.
  - destruct IH as (l1 & t & l2 & -> & Ht & H1); [tauto|].
    exists (a :: l1), t, l2. simpl. tauto.
Qed.

End Loops.

Lemma is_empty_app l1 (t : Task) l2 : is_empty (l1 ++ t :: l2) = false.
Proof. now destruct l1. Qed.

Lemma toggle_tasks id st l t :
  update_first id (fun task => setCompleted task (negb (isCompleted task)))
    (tasks st) = Some (l, t) ->
  tasks (toggleTaskComplete (Some id) st) = l.
Proof.
  intros H. unfold toggleTaskComplete.
  destruct (tasks st) as [|a r] eqn:E; [discriminate|].
  cbn [is_empty print tasks]. rewrite E, H. reflexivity.
Qed.

Lemma edit_tasks id d st l t :
  update_first id (fun task => setDescription task d) (tasks st)
    = Some (l, t) ->
  tasks (editTask (Some id) d st) = l.
Proof.
  intros H. unfold editTask.
  destruct (tasks st) as [|a r] eqn:E; [discriminate|].
  cbn [is_empty print tasks]. rewrite E, H. reflexivity.
Qed.

(** What [viewTasks] prints depends on the vector only. *)
Lemma viewTasks_cout st :
  cout (viewTasks st) = cout st ++ cout (viewTasks (set_tasks (tasks st) (initial None))).
Proof.
  unfold viewTasks. cbn [set_tasks tasks].
  destruct (is_empty (tasks st)); reflexivity.
Qed.

(** C5.  In a store that holds a task with id [i], [toggleTaskComplete]
    flips the completed flag of the first such task and nothing else, and
    toggling [i] a second time gives back the vector it started from:
    same flag, same id and description, same other records in the same
    order. *)
Theorem toggle_twice_restores i st :
  In i (ids (tasks st)) ->
  exists l1 t l2,
    tasks st = (l1 ++ t :: l2)%list /\ getId t = i /\ ~ In i (ids l1) /\
    tasks (toggleTaskComplete (Some i) st) =
      (l1 ++ mkTask (getId t) (getDescription t) (negb (isCompleted t)) :: l2)%list /\
    tasks (toggleTaskComplete (Some i) (toggleTaskComplete (Some i) st)) =
      tasks st.
Proof.
  intros H. destruct (first_occurrence i _ H) as (l1 & t & l2 & E & Ht & H1).
  exists l1, t, l2. repeat split; try assumption.
  - apply (toggle_tasks i st _ (setCompleted t (negb (isCompleted t)))).
    rewrite E. now apply update_first_at.
  - set (f := fun task => setCompleted task (negb (isCompleted task))).
    assert (E1 : tasks (toggleTaskComplete (Some i) st) = (l1 ++ f t :: l2)%list).
    { apply (toggle_tasks i st _ (f t)). rewrite E. now apply update_first_at. }
    rewrite (toggle_tasks i _ (l1 ++ f (f t) :: l2)%list (f (f t))).
    + rewrite E. unfold f, setCompleted. cbn.
      rewrite negb_involutive. now destruct t.
    + rewrite E1. now apply update_first_at.
Qed.

Lemma toggle_twice_restores_witness :
  In 2 (ids (tasks (set_tasks [mkTask 1 "A" false; mkTask 2 "B" true]
                      (initial None)))) /\
  exists l1 t l2,
    tasks (set_tasks [mkTask 1 "A" false; mkTask 2 "B" true] (initial None))
      = (l1 ++ t :: l2)%list /\ getId t = 2 /\ ~ In 2 (ids l1) /\
    tasks (toggleTaskComplete (Some 2)
             (set_tasks [mkTask 1 "A" false; mkTask 2 "B" true] (initial None)))
      = (l1 ++ mkTask (getId t) (getDescription t) (negb (isCompleted t)) :: l2)%list /\
    tasks (toggleTaskComplete (Some 2) (toggleTaskComplete (Some 2)
             (set_tasks [mkTask 1 "A" false; mkTask 2 "B" true] (initial None))))
      = tasks (set_tasks [mkTask 1 "A" false; mkTask 2 "B" true] (initial None)).
Proof.
  assert (H : In 2 (ids (tasks (set_tasks
                 [mkTask 1 "A" false; mkTask 2 "B" true] (initial None))))).
  { simpl. right. left. reflexivity. }
  split; [exact H | exact (toggle_twice_restores 2 _ H)].
Defined.

(** C6.  In a store that holds a task with id [i], [editTask] with the
    description [d] replaces the description of the first such task; its
    id and completed flag, the other records and the order are as they
    were. *)
Theorem edit_changes_description_only i d st :
  In i (ids (tasks st)) ->
  exists l1 t l2,
    tasks st = (l1 ++ t :: l2)%list /\ getId t = i /\ ~ In i (ids l1) /\
    tasks (editTask (Some i) d st) =
      (l1 ++ mkTask (getId t) d (isCompleted t) :: l2)%list /\
    nextId (editTask (Some i) d st) = nextId st.
Proof.
  intros H. destruct (first_occurrence i _ H) as (l1 & t & l2 & E & Ht & H1).
  exists l1, t, l2. repeat split; try assumption.
  - apply (edit_tasks i d st _ (setDescription t d)).
    rewrite E. now apply update_first_at.
  - unfold editTask. rewrite E, is_empty_app.
    cbn [print tasks]. rewrite E, update_first_at by assumption. reflexivity.
Qed.

Lemma edit_changes_description_only_witness :
  In 2 (ids (tasks (set_tasks [mkTask 1 "A" false; mkTask 2 "B" true]
                      (initial None)))) /\
  exists l1 t l2,
    tasks (set_tasks [mkTask 1 "A" false; mkTask 2 "B" true] (initial None))
      = (l1 ++ t :: l2)%list /\ getId t = 2 /\ ~ In 2 (ids l1) /\
    tasks (editTask (Some 2) "C|D"
             (set_tasks [mkTask 1 "A" false; mkTask 2 "B" true] (initial None)))
      = (l1 ++ mkTask (getId t) "C|D" (isCompleted t) :: l2)%list /\
    nextId (editTask (Some 2) "C|D"
             (set_tasks [mkTask 1 "A" false; mkTask 2 "B" true] (initial None)))
      = nextId (set_tasks [mkTask 1 "A" false; mkTask 2 "B" true] (initial None)).
Proof.
  assert (H : In 2 (ids (tasks (set_tasks
                 [mkTask 1 "A" false; mkTask 2 "B" true] (initial None))))).
  { simpl. right. left. reflexivity. }
  split; [exact H | exact (edit_changes_description_only 2 "C|D" _ H)].
Defined.

(** C3, as the program has it.  For an id that no task of the store has,
    [toggleTaskComplete] and [deleteTask] leave the vector, the counter and
    [tasks.txt] as they were and do not open the file for writing, so that
    [viewTasks] prints afterwards what it printed before.  When the store
    holds tasks, both end on the message [Task with ID <id> not found.];
    on the empty store the guard at the top of either function prints
    [No tasks to toggle.] or [No tasks to delete.] and returns before any
    id is asked for. *)
Theorem absent_id_changes_nothing id st :
  ~ In id (ids (tasks st)) ->
  let st1 := toggleTaskComplete (Some id) st in
  let st2 := deleteTask (Some id) st in
  (tasks st1 = tasks st /\ nextId st1 = nextId st /\
   file st1 = file st /\ writes st1 = writes st) /\
  (tasks st2 = tasks st /\ nextId st2 = nextId st /\
   file st2 = file st /\ writes st2 = writes st) /\
  (exists txt, cout (viewTasks st) = cout st ++ txt /\
     cout (viewTasks st1) = cout st1 ++ txt /\
     cout (viewTasks st2) = cout st2 ++ txt) /\
  (tasks st <> [] ->
     reports_not_found id st1 = true /\ reports_not_found id st2 = true) /\
  (tasks st = [] ->
     cout st1 = cout st ++ "No tasks to toggle." ++ nl /\
     cout st2 = cout st ++ "No tasks to delete." ++ nl).
Proof.
  intros H st1 st2.
  assert (T1 : tasks st1 = tasks st /\ nextId st1 = nextId st /\
               file st1 = file st /\ writes st1 = writes st).
  { subst st1. unfold toggleTaskComplete.
    destruct (is_empty (tasks st)); [now repeat split|].
    cbn [print tasks]. rewrite update_first_absent by assumption.
    now repeat split. }
  assert (T2 : tasks st2 = tasks st /\ nextId st2 = nextId st /\
               file st2 = file st /\ writes st2 = writes st).
  { subst st2. unfold deleteTask.
    destruct (is_empty (tasks st)); [now repeat split|].
    cbn [print tasks]. rewrite erase_first_absent by assumption.
    now repeat split. }
  split; [exact T1 | split; [exact T2 | split; [|split]]].
  - exists (cout (viewTasks (set_tasks (tasks st) (initial None)))).
    rewrite (viewTasks_cout st), (viewTasks_cout st1), (viewTasks_cout st2).
    destruct T1 as (-> & _), T2 as (-> & _). now repeat split.
  - intros Hne. subst st1 st2. unfold toggleTaskComplete, deleteTask.
    destruct (tasks st) as [|a r] eqn:E; [congruence|].
    cbn [is_empty print tasks]. rewrite E.
    rewrite update_first_absent, erase_first_absent by assumption.
    unfold reports_not_found, print, put. cbn [cout].
    split; apply ends_with_app.
  - intros E. subst st1 st2. unfold toggleTaskComplete, deleteTask.
    rewrite E. split; reflexivity.
Qed.

Lemma absent_id_changes_nothing_witness :
  ~ In 99 (ids (tasks (set_tasks [mkTask 1 "A" false; mkTask 2 "B" true]
                         (initial None)))) /\
  tasks (deleteTask (Some 99)
           (set_tasks [mkTask 1 "A" false; mkTask 2 "B" true] (initial None)))
    = [mkTask 1 "A" false; mkTask 2 "B" true] /\
  reports_not_found 99
    (deleteTask (Some 99)
       (set_tasks [mkTask 1 "A" false; mkTask 2 "B" true] (initial None)))
    = true.
Proof.
  assert (H : ~ In 99 (ids (tasks (set_tasks
                 [mkTask 1 "A" false; mkTask 2 "B" true] (initial None))))).
  { simpl. intros [H|[H|H]]; [discriminate H | discriminate H | exact H]. }
  pose proof (absent_id_changes_nothing 99 _ H) as (_ & (T & _) & _ & R & _).
  split; [exact H | split; [exact T|]].
  apply R. discriminate.
Defined.

(** C3 as stated fails on the empty store: no task has id 1, yet neither
    operation reports that the id was not found. *)
Lemma empty_store_reports_no_tasks :
  ~ In 1 (ids (tasks (initial None))) /\
  cout (toggleTaskComplete (Some 1) (initial None))
    = "No tasks to toggle." ++ nl /\
  reports_not_found 1 (toggleTaskComplete (Some 1) (initial None)) = false /\
  cout (deleteTask (Some 1) (initial None)) = "No tasks to delete." ++ nl /\
  reports_not_found 1 (deleteTask (Some 1) (initial None)) = false.
Proof.
  split; [intros []|]. repeat split; reflexivity.
Qed.

(* ================================================================== *)
(** * Lines of the file *)
(* ================================================================== *)

Lemma split_extract d s :
  split d s =
    match extract d s with
    | (a, Some r) => a :: split d r
    | (a, None) => [a]
    end.
Proof.
  induction s as [|c s IH]; simpl; [reflexivity|].
  destruct (Ascii.eqb c d); [reflexivity|].
  rewrite IH. now destruct (extract d s) as [a [r|]].
Qed.

Lemma split_length d s : (1 <= length (split d s))%nat.
Proof.
  rewrite split_extract. destruct (extract d s) as [a [r|]]; simpl; lia.
Qed.

(** A line with fewer than two delimiters does not pass the condition of
    the [if]. *)
Lemma split_line_short line :
  (length (split bar line) < 3)%nat -> split_line line = None.
Proof.
  intros H. rewrite split_extract in H.
  unfold split_line, getline at 1.
  cbn [good istream_of buf eofbit failbit orb negb].
  destruct (extract bar line) as [a [r|]].
  - simpl in H. rewrite split_extract in H.
    unfold getline at 1. cbn [good buf eofbit failbit orb negb].
    destruct (extract bar r) as [b [r'|]].
    + pose proof (split_length bar r'). simpl in H. lia.
    + destruct b; reflexivity.
  - destruct a; reflexivity.
Qed.

Lemma split_line_no_flag a b :
  contains bar a = false -> contains bar b = false ->
  split_line (a ++ "|" ++ b ++ "|") = None.
Proof.
  intros Ha Hb. unfold split_line.
  change (a ++ "|" ++ b ++ "|")
    with (a ++ String bar (b ++ String bar EmptyString)).
  rewrite (getline_app bar a) by assumption.
  rewrite (getline_app bar b) by assumption.
  reflexivity.
Qed.

(** C10, as the program has it.  When a line has two delimiters and
    something after the second one, and its first field reads as an [int],
    the record appended has that id, the second field as description, and
    is completed exactly when the whole remainder of the line after the
    second delimiter (further delimiters included) is the string ["1"].
    A line with fewer than three fields is skipped, and so is a line that
    ends on its second delimiter. *)
Theorem load_line_completed_flag :
  (forall a b c st id,
     contains bar a = false -> contains bar b = false ->
     contains nl_char c = false -> c <> EmptyString ->
     stoi a = Ok id ->
     exists st' t,
       load_line (a ++ "|" ++ b ++ "|" ++ c) st = Ok st' /\
       tasks st' = (tasks st ++ [t])%list /\
       getId t = id /\ getDescription t = b /\
       (isCompleted t = true <-> c = "1")) /\
  (forall line st,
     (length (split bar line) < 3)%nat -> load_line line st = Ok st) /\
  (forall a b st,
     contains bar a = false -> contains bar b = false ->
     load_line (a ++ "|" ++ b ++ "|") st = Ok st).
Proof.
  split; [|split].
  - intros a b c st id Ha Hb Hc Hne Hid.
    exists (loaded id b (String.eqb c "1") st), (mkTask id b (String.eqb c "1")).
    rewrite load_line_cases, split_line_fields, Hid by assumption.
    repeat split; try reflexivity; cbn [isCompleted].
    + apply String.eqb_eq.
    + apply String.eqb_eq.
  - intros line st H. now rewrite load_line_cases, split_line_short.
  - intros a b st Ha Hb. now rewrite load_line_cases, split_line_no_flag.
Qed.

Lemma load_line_completed_flag_witness :
  stoi "7" = Ok 7 /\
  (length (split bar "7|no flag") < 3)%nat /\
  exists st' t,
    load_line ("7" ++ "|" ++ "Finish C++ project" ++ "|" ++ "1")
      (initial None) = Ok st' /\
    tasks st' = [t] /\ isCompleted t = true.
Proof.
  assert (Hid : stoi "7" = Ok 7) by reflexivity.
  assert (Hlen : (length (split bar "7|no flag") < 3)%nat) by (simpl; lia).
  split; [exact Hid | split; [exact Hlen|]].
  destruct (proj1 load_line_completed_flag "7" "Finish C++ project" "1"
              (initial None) 7 eq_refl eq_refl eq_refl
              ltac:(discriminate) Hid)
    as (st' & t & E & Ht & _ & _ & Hc).
  exists st', t. split; [exact E | split; [exact Ht|]].
  apply Hc. reflexivity.
Defined.

(** C10 as stated fails: the line [1|a|1|b] has four fields, the third is
    ["1"], and the record loaded is not completed. *)
Lemma third_field_is_not_the_flag :
  split bar "1|a|1|b" = ["1"; "a"; "1"; "b"] /\
  exists st',
    load_line "1|a|1|b" (initial None) = Ok st' /\
    tasks st' = [mkTask 1 "a" false].
Proof.
  split; [reflexivity|]. eexists. split; reflexivity.
Qed.

(** C4.  A line of [tasks.txt] whose first field is not a number, or is a
    number that does not fit [int], makes [std::stoi] throw; nothing
    catches the exception and the process ends before the menu is shown,
    whatever the user would have typed. *)
Theorem malformed_id_ends_process :
  (forall cmds, main (Some ("abc|x|0" ++ nl)) cmds = Throw invalid_argument) /\
  (forall cmds, main (Some ("1|A|0" ++ nl ++ "|B|1" ++ nl)) cmds
                = Throw invalid_argument) /\
  (forall cmds, main (Some ("99999999999|x|0" ++ nl)) cmds
                = Throw out_of_range).
Proof. repeat split. Qed.

(* ================================================================== *)
(** * The id counter *)
(* ================================================================== *)

Lemma bump_exact id n :
  in_range n -> in_range id -> Z.max (n + 1) (id + 1) <= INT_MAX ->
  bump id n = Z.max (n + 1) (id + 1).
Proof.
  intros Hn Hid Hmax. unfold bump.
  rewrite succ_small by (unfold in_range in *; lia).
  destruct (Z.geb_spec id (n + 1)).
  - rewrite wrap_in_range by (unfold in_range in *; lia). lia.
  - lia.
Qed.

Lemma next_after_ge l : forall n, n <= next_after n l.
Proof.
  induction l as [|id l IH]; intros n; simpl; [lia|].
  specialize (IH (Z.max (n + 1) (id + 1))). lia.
Qed.

Lemma next_after_gt l : forall n id, In id l -> id < next_after n l.
Proof.
  induction l as [|a l IH]; intros n id; simpl; [contradiction|].
  intros [->|H].
  - pose proof (next_after_ge l (Z.max (n + 1) (id + 1))). lia.
  - now apply IH.
Qed.

(** As long as the unbounded counter stays an [int], the counter of the
    program is that counter. *)
Lemma fold_bump l : forall n,
  in_range n -> Forall in_range l -> next_after n l <= INT_MAX ->
  fold_left (fun n id => bump id n) l n = next_after n l.
Proof.
  induction l as [|id l IH]; intros n Hn Hl Hmax; simpl in *; [reflexivity|].
  inversion Hl as [|? ? Hid Hl']; subst.
  pose proof (next_after_ge l (Z.max (n + 1) (id + 1))) as Hge.
  rewrite bump_exact by (assumption || lia).
  apply IH; [unfold in_range in *; lia | assumption | assumption].
Qed.

(** What the loop of [loadTasksFromFile] does to the state when it runs
    to its end: records are appended, their ids are [int]s, and the
    counter is bumped once for each. *)
Lemma load_loop_state fuel : forall fs st st',
  load_loop fuel fs st = Ok st' ->
  exists new,
    tasks st' = (tasks st ++ new)%list /\
    Forall in_range (ids new) /\
    nextId st' = fold_left (fun n id => bump id n) (ids new) (nextId st) /\
    cout st' = cout st /\ writes st' = writes st.
Proof.
  induction fuel as [|fuel IH]; intros fs st st'; simpl.
  - intros [= <-]. exists []. rewrite app_nil_r. now repeat split.
  - destruct (getline fs nl_char) as [[line|] fs'].
    + rewrite load_line_cases.
      destruct (split_line line) as [[[a b] c]|]; [|apply IH].
      destruct (stoi a) as [id|e] eqn:Eid; [|discriminate].
      intros H. apply IH in H as (new & Ht & Hr & Hn & Hc & Hw).
      exists (mkTask id b (String.eqb c "1") :: new).
      cbn [loaded tasks nextId cout writes] in *.
      rewrite <- app_assoc in Ht. repeat split; try assumption.
      constructor; [now apply stoi_in_range with a | assumption].
    + intros [= <-]. exists []. rewrite app_nil_r. now repeat split.
Qed.

Lemma load_initial f st :
  loadTasksFromFile (initial f) = Ok st ->
  Forall in_range (ids (tasks st)) /\
  nextId st = fold_left (fun n id => bump id n) (ids (tasks st)) 1 /\
  cout st = EmptyString /\ writes st = O.
Proof.
  unfold loadTasksFromFile. destruct f as [content|]; cbn [file initial].
  - intros H. apply load_loop_state in H as (new & Ht & Hr & Hn & Hc & Hw).
    simpl in Ht. subst new. now repeat split.
  - intros [= <-]. repeat split. constructor.
Qed.

(** C8, as the program has it.  Without a storage file,
    [loadTasksFromFile] returns at once: the vector is empty, the counter
    is 1 and nothing is reported.  With a storage file, when loading runs
    to its end and the counter has not gone past [INT_MAX] on the way, the
    counter is strictly greater than the id of every record loaded. *)
Theorem nextId_after_load :
  (exists st,
     loadTasksFromFile (initial None) = Ok st /\
     tasks st = [] /\ nextId st = 1 /\ cout st = EmptyString) /\
  (forall content st,
     loadTasksFromFile (initial (Some content)) = Ok st ->
     next_after 1 (ids (tasks st)) <= INT_MAX ->
     nextId st = next_after 1 (ids (tasks st)) /\
     forall t, In t (tasks st) -> getId t < nextId st).
Proof.
  split.
  - exists (initial None). now repeat split.
  - intros content st H Hmax.
    apply load_initial in H as (Hr & Hn & _).
    rewrite fold_bump in Hn by (assumption || (unfold in_range, INT_MIN, INT_MAX; lia)).
    split; [assumption|]. intros t Ht. rewrite Hn.
    apply next_after_gt. unfold ids. now apply in_map.
Qed.

Lemma nextId_after_load_witness :
  exists st,
    loadTasksFromFile (initial (Some ("5|A|0" ++ nl ++ "2|B|1" ++ nl))) = Ok st /\
    next_after 1 (ids (tasks st)) <= INT_MAX /\
    nextId st = 7 /\
    forall t, In t (tasks st) -> getId t < nextId st.
Proof.
  eexists. split; [reflexivity|].
  assert (Hmax : next_after 1 [5; 2] <= INT_MAX)
    by (unfold INT_MAX; simpl; lia).
  split; [exact Hmax|].
  exact (proj2 nextId_after_load ("5|A|0" ++ nl ++ "2|B|1" ++ nl) _
           eq_refl Hmax).
Defined.

(** C8 as stated fails: after loading a record whose id is [INT_MAX] the
    counter is [INT_MIN], below that id. *)
Lemma nextId_wraps_at_INT_MAX :
  exists st,
    loadTasksFromFile (initial (Some ("2147483647|a|0" ++ nl))) = Ok st /\
    tasks st = [mkTask 2147483647 "a" false] /\
    nextId st = -2147483648 /\
    ~ (forall t, In t (tasks st) -> getId t < nextId st).
Proof.
  eexists. split; [reflexivity|]. split; [reflexivity|].
  split; [reflexivity|].
  intros H. specialize (H _ (or_introl eq_refl)).
  vm_compute in H. discriminate H.
Qed.

(* ------------------------------------------------------------------ *)
(** ** Ids given by [addTask] *)

Lemma count_from_sorted k : forall n,
  StronglySorted Z.lt (count_from n k) /\
  Forall (fun i => n <= i) (count_from n k).
Proof.
  induction k as [|k IH]; intros n; simpl.
  - split; constructor.
  - destruct (IH (n + 1)) as (Hs & Hf). split.
    + constructor; [assumption|].
      eapply Forall_impl; [|exact Hf]. simpl. intros; lia.
    + constructor; [lia|].
      eapply Forall_impl; [|exact Hf]. simpl. intros; lia.
Qed.

Lemma sorted_lt_NoDup l : StronglySorted Z.lt l -> NoDup l.
Proof.
  induction 1 as [|a l Hs IH Hf]; constructor; [|assumption].
  intros Hin. rewrite Forall_forall in Hf. specialize (Hf _ Hin). lia.
Qed.

Lemma addTasks_ids descs : forall st,
  in_range (nextId st) ->
  nextId st + Z.of_nat (length descs) <= INT_MAX + 1 ->
  ids (fst (addTasks descs st)) = count_from (nextId st) (length descs) /\
  tasks (snd (addTasks descs st)) = (tasks st ++ fst (addTasks descs st))%list.
Proof.
  induction descs as [|d r IH]; intros st Hn Hb.
  - simpl. now rewrite app_nil_r.
  - cbn [addTasks length count_from].
    assert (Hlast : last (tasks (addTask d st)) (mkTask 0 "" false)
                    = mkTask (nextId st) d false)
      by (cbn; apply last_last).
    destruct r as [|d' r'].
    + cbn [addTasks fst snd ids map length count_from].
      rewrite Hlast. split; reflexivity.
    + assert (Hs : nextId (addTask d st) = nextId st + 1).
      { cbn. apply succ_small; [assumption|].
        cbn [length] in Hb. lia. }
      destruct (IH (addTask d st)) as (Hi & Ht).
      * rewrite Hs. unfold in_range in *.
        cbn [length] in Hb. lia.
      * rewrite Hs. cbn [length] in Hb |- *. lia.
      * destruct (addTasks (d' :: r') (addTask d st)) as [created st2].
        cbn [fst snd] in *. rewrite Hlast. split.
        -- cbn [ids map getId]. fold (ids created). now rewrite Hi, Hs.
        -- rewrite Ht. cbn. now rewrite <- app_assoc.
Qed.

(** C2, as the program has it.  From a store whose counter is [n], a run
    of [k] calls of [addTask] gives the tasks it creates the ids
    [n, n+1, ..., n+k-1], strictly increasing and pairwise distinct, as
    long as [n+k-1] does not exceed [INT_MAX]; the tasks created are
    appended to the vector in that order. *)
Theorem successive_ids_increase descs st :
  in_range (nextId st) ->
  nextId st + Z.of_nat (length descs) <= INT_MAX + 1 ->
  let created := fst (addTasks descs st) in
  ids created = count_from (nextId st) (length descs) /\
  StronglySorted Z.lt (ids created) /\
  NoDup (ids created) /\
  tasks (snd (addTasks descs st)) = (tasks st ++ created)%list.
Proof.
  intros Hn Hb created.
  destruct (addTasks_ids descs st Hn Hb) as (Hi & Ht).
  pose proof (proj1 (count_from_sorted (length descs) (nextId st))) as Hs.
  subst created. rewrite Hi.
  repeat split; [assumption | now apply sorted_lt_NoDup | assumption].
Qed.

Lemma successive_ids_increase_witness :
  in_range (nextId (initial None)) /\
  ids (fst (addTasks ["Take out trash"; "b"; "c"] (initial None)))
    = [1; 2; 3] /\
  StronglySorted Z.lt
    (ids (fst (addTasks ["Take out trash"; "b"; "c"] (initial None)))).
Proof.
  assert (Hn : in_range (nextId (initial None)))
    by (unfold in_range, INT_MIN, INT_MAX; simpl; lia).
  assert (Hb : nextId (initial None)
               + Z.of_nat (length ["Take out trash"; "b"; "c"])
               <= INT_MAX + 1)
    by (unfold INT_MAX; simpl; lia).
  destruct (successive_ids_increase ["Take out trash"; "b"; "c"]
              (initial None) Hn Hb) as (Hi & Hs & _).
  split; [exact Hn | split; [exact Hi | exact Hs]].
Defined.

(** C2 as stated fails: after loading a record with id [INT_MAX - 1] the
    counter is [INT_MAX], and two calls of [addTask] give the ids
    [INT_MAX] and [INT_MIN]. *)
Lemma created_ids_wrap_at_INT_MAX :
  exists st,
    loadTasksFromFile (initial (Some ("2147483646|a|0" ++ nl))) = Ok st /\
    ids (fst (addTasks ["b"; "c"] st)) = [2147483647; -2147483648] /\
    ~ StronglySorted Z.lt (ids (fst (addTasks ["b"; "c"] st))).
Proof.
  eexists. split; [reflexivity|].
  assert (E : ids (fst (addTasks ["b"; "c"]
                {| tasks := [mkTask 2147483646 "a" false];
                   nextId := 2147483647;
                   file := Some ("2147483646|a|0" ++ nl);
                   writes := 0; cout := "" |}))
              = [2147483647; -2147483648]) by reflexivity.
  split; [exact E|]. intros H.
  change (StronglySorted Z.lt [2147483647; -2147483648]) in H.
  inversion H as [|? ? _ Hf]; subst. inversion Hf as [|? ? Hlt _]; subst.
  discriminate Hlt.
Qed.

(* ================================================================== *)
(** * Distinct ids *)
(* ================================================================== *)

Lemma update_first_ids id f : forall l l' t',
  (forall t, getId (f t) = getId t) ->
  update_first id f l = Some (l', t') -> ids l' = ids l.
Proof.
  induction l as [|a l IH]; intros l' t' Hf; simpl; [discriminate|].
  destruct (getId a =? id).
  - intros [= <- _]. simpl. now rewrite Hf.
  - destruct (update_first id f l) as [[r x]|] eqn:E; [|discriminate].
    intros [= <- _]. simpl. f_equal. now apply (IH r x).
Qed.

Lemma erase_first_split id : forall l l',
  erase_first id l = Some l' ->
  exists l1 t l2, l = (l1 ++ t :: l2)%list /\ l' = (l1 ++ l2)%list.
Proof.
  induction l as [|a l IH]; intros l'; simpl; [discriminate|].
  destruct (getId a =? id).
  - intros [= <-]. now exists [], a, l.
  - destruct (erase_first id l) as [r|] eqn:E; [|discriminate].
    intros [= <-]. destruct (IH r eq_refl) as (l1 & t & l2 & -> & ->).
    now exists (a :: l1), t, l2.
Qed.

(** [toggleTaskComplete] and [editTask] leave the ids and the counter as
    they are; [deleteTask] takes at most one task out. *)
Lemma toggle_ids input st :
  ids (tasks (toggleTaskComplete input st)) = ids (tasks st) /\
  nextId (toggleTaskComplete input st) = nextId st.
Proof.
  unfold toggleTaskComplete.
  destruct (is_empty (tasks st)); [now split|].
  destruct input as [id|]; [|now split]. cbn [print tasks].
  destruct (update_first id _ (tasks st)) as [[l t]|] eqn:E; [|now split].
  split; [|reflexivity]. cbn. now apply update_first_ids in E.
Qed.

Lemma edit_ids input d st :
  ids (tasks (editTask input d st)) = ids (tasks st) /\
  nextId (editTask input d st) = nextId st.
Proof.
  unfold editTask.
  destruct (is_empty (tasks st)); [now split|].
  destruct input as [id|]; [|now split]. cbn [print tasks].
  destruct (update_first id _ (tasks st)) as [[l t]|] eqn:E; [|now split].
  split; [|reflexivity]. cbn. now apply update_first_ids in E.
Qed.

Lemma delete_ids input st :
  nextId (deleteTask input st) = nextId st /\
  (tasks (deleteTask input st) = tasks st \/
   exists l1 t l2, tasks st = (l1 ++ t :: l2)%list /\
                   tasks (deleteTask input st) = (l1 ++ l2)%list).
Proof.
  unfold deleteTask.
  destruct (is_empty (tasks st)); [now split; [|left]|].
  destruct input as [id|]; [|now split; [|left]]. cbn [print tasks].
  destruct (erase_first id (tasks st)) as [l|] eqn:E; [|now split; [|left]].
  split; [reflexivity|]. right. cbn. now apply erase_first_split with id.
Qed.

Lemma distinct_below_ids st st' :
  ids (tasks st') = ids (tasks st) -> nextId st' = nextId st ->
  distinct_below st -> distinct_below st'.
Proof. unfold distinct_below. now intros -> ->. Qed.

(** One turn of the menu keeps the ids distinct and below the counter;
    [addTask] moves the counter up by one, which asks for room below
    [INT_MAX]; the other commands leave the counter where it is. *)
Lemma turn_distinct c st :
  distinct_below st ->
  (forall d, c = Add d -> nextId st < INT_MAX) ->
  distinct_below (turn st c) /\
  nextId (turn st c) = nextId st + Z.of_nat (count_adds [c]).
Proof.
  intros Hd Hlt. unfold turn.
  assert (Hp : distinct_below (printMenu st)) by exact Hd.
  change (nextId st) with (nextId (printMenu st)) in Hlt |- *.
  revert Hp Hlt. generalize (printMenu st). clear st Hd. intros st Hd Hlt.
  destruct c as [d| |input|input|input d]; cbn [dispatch count_adds].
  - specialize (Hlt d eq_refl). destruct Hd as (Hnd & Hr & Hb).
    assert (Hs : Int.succ (nextId st) = nextId st + 1)
      by now apply succ_small.
    split; [|cbn; lia]. unfold distinct_below. cbn. rewrite Hs.
    unfold ids in *. rewrite map_app. cbn [map getId]. split; [|split].
    + apply NoDup_app; [assumption | repeat constructor; intros [] |].
      intros i Hi [<-|[]]. rewrite Forall_forall in Hb.
      specialize (Hb _ Hi). lia.
    + unfold in_range in *. lia.
    + apply Forall_app. split.
      * eapply Forall_impl; [|exact Hb]. simpl. intros; lia.
      * repeat constructor. lia.
  - split; [|unfold viewTasks; destruct (is_empty (tasks st)); cbn; lia].
    apply (distinct_below_ids st); [| |assumption];
      unfold viewTasks; now destruct (is_empty (tasks st)).
  - destruct (toggle_ids input st) as (Hi & Hn).
    split; [now apply (distinct_below_ids st) | lia].
  - destruct (delete_ids input st) as (Hn & [Ht|(l1 & t & l2 & E & Ht)]).
    + split; [|lia]. apply (distinct_below_ids st); [now rewrite Ht|assumption..].
    + split; [|lia]. destruct Hd as (Hnd & Hr & Hb).
      unfold distinct_below, ids in *. rewrite Ht, Hn.
      rewrite E, map_app in Hnd, Hb. cbn [map] in Hnd, Hb.
      rewrite map_app. split; [|split].
      * now apply NoDup_remove_1 in Hnd.
      * assumption.
      * apply Forall_app in Hb as (H1 & H2). inversion H2; subst.
        apply Forall_app. now split.
  - destruct (edit_ids input d st) as (Hi & Hn).
    split; [now apply (distinct_below_ids st) | lia].
Qed.

Lemma count_adds_cons c cmds :
  count_adds (c :: cmds) = (count_adds [c] + count_adds cmds)%nat.
Proof. now destruct c. Qed.

Lemma count_adds_firstn k : forall cmds,
  (count_adds (firstn k cmds) <= count_adds cmds)%nat.
Proof.
  induction k as [|k IH]; intros cmds; [simpl; lia|].
  destruct cmds as [|c cmds]; [simpl; lia|].
  cbn [firstn].
  rewrite (count_adds_cons c cmds), (count_adds_cons c (firstn k cmds)).
  specialize (IH cmds). lia.
Qed.

Lemma run_distinct cmds : forall st,
  distinct_below st ->
  nextId st + Z.of_nat (count_adds cmds) <= INT_MAX ->
  distinct_below (fold_left turn cmds st).
Proof.
  induction cmds as [|c cmds IH]; intros st Hd Hb; [assumption|].
  cbn [fold_left]. rewrite count_adds_cons in Hb.
  destruct (turn_distinct c st Hd) as (Hd' & Hn).
  - intros d ->. cbn [count_adds] in Hb. lia.
  - apply IH; [assumption | lia].
Qed.

(** C9, as the program has it.  [loadTasksFromFile] takes the ids as they
    stand in the file and does not compare them.  When the ids it has
    loaded are pairwise distinct, they remain pairwise distinct after
    every [addTask], [editTask], [toggleTaskComplete] and [deleteTask]
    that follows, as long as the counter stays within [int]: the counter
    after loading plus the number of calls of [addTask] does not exceed
    [INT_MAX]. *)
Theorem ids_stay_distinct f st cmds k :
  loadTasksFromFile (initial f) = Ok st ->
  NoDup (ids (tasks st)) ->
  next_after 1 (ids (tasks st)) + Z.of_nat (count_adds cmds) <= INT_MAX ->
  NoDup (ids (tasks (fold_left turn (firstn k cmds) st))).
Proof.
  intros Hload Hnd Hb.
  apply load_initial in Hload as (Hr & Hn & _).
  assert (H1 : in_range 1) by (unfold in_range, INT_MIN, INT_MAX; lia).
  rewrite fold_bump in Hn by (assumption || lia).
  pose proof (next_after_ge (ids (tasks st)) 1) as Hge.
  assert (Hd : distinct_below st).
  { split; [assumption | split].
    - unfold in_range, INT_MIN in *. lia.
    - rewrite Forall_forall. intros i Hi. rewrite Hn.
      now apply next_after_gt. }
  apply (run_distinct (firstn k cmds)) in Hd; [apply Hd|].
  rewrite Hn. pose proof (count_adds_firstn k cmds). lia.
Qed.

Lemma ids_stay_distinct_witness :
  exists st,
    loadTasksFromFile (initial (Some ("1|A|0" ++ nl ++ "2|B|1" ++ nl))) = Ok st /\
    NoDup (ids (tasks st)) /\
    NoDup (ids (tasks (fold_left turn
              [Add "C"; Delete (Some 2); Add "D"; Toggle (Some 1);
               Edit (Some 3) "E"] st))).
Proof.
  eexists. split; [reflexivity|].
  assert (Hnd : NoDup [1; 2]).
  { constructor; [intros [H|[]]; discriminate H|].
    constructor; [intros []|constructor]. }
  split; [exact Hnd|].
  refine (ids_stay_distinct (Some ("1|A|0" ++ nl ++ "2|B|1" ++ nl)) _
            [Add "C"; Delete (Some 2); Add "D"; Toggle (Some 1);
             Edit (Some 3) "E"] 5%nat eq_refl Hnd _).
  unfold INT_MAX. simpl. lia.
Defined.

(** C9 as stated fails: two lines of the file with the same id give two
    tasks with the same id. *)
Lemma duplicate_ids_are_loaded :
  exists st,
    loadTasksFromFile (initial (Some ("1|a|0" ++ nl ++ "1|b|1" ++ nl))) = Ok st /\
    tasks st = [mkTask 1 "a" false; mkTask 1 "b" true] /\
    ~ NoDup (ids (tasks st)).
Proof.
  eexists. split; [reflexivity|]. split; [reflexivity|].
  intros H. inversion H as [|? ? Hin _]; subst. apply Hin. now left.
Qed.

(* ================================================================== *)
(** * Further properties: reading the file *)
(* ================================================================== *)

Lemma file_lines_extract s :
  file_lines s =
    let (a, rest) := extract nl_char s in
    match rest with
    | Some r => a :: file_lines r
    | None => match a with EmptyString => [] | _ => [a] end
    end.
Proof.
  induction s as [|c s IH]; simpl; [reflexivity|].
  destruct (Ascii.eqb c nl_char); [reflexivity|].
  rewrite IH. destruct (extract nl_char s) as [a [r|]]; [reflexivity|].
  now destruct a.
Qed.

Lemma file_lines_cons l rest :
  contains nl_char l = false ->
  file_lines (l ++ String nl_char rest) = l :: file_lines rest.
Proof.
  intros H. now rewrite file_lines_extract, extract_app.
Qed.

Lemma file_lines_unlines ls : forall tail,
  Forall (fun l => contains nl_char l = false) ls ->
  file_lines (unlines ls ++ tail) = (ls ++ file_lines tail)%list.
Proof.
  induction ls as [|l ls IH]; intros tail H; [reflexivity|].
  inversion H as [|? ? Hl Hls]; subst. cbn [unlines].
  rewrite !append_assoc.
  change (l ++ nl ++ unlines ls ++ tail)
    with (l ++ String nl_char (unlines ls ++ tail)).
  rewrite file_lines_cons by assumption. simpl. now rewrite IH.
Qed.

Lemma file_lines_no_nl s :
  Forall (fun l => contains nl_char l = false) (file_lines s).
Proof.
  induction s as [|c s IH]; simpl; [constructor|].
  destruct (Ascii.eqb c nl_char) eqn:E; [now constructor|].
  destruct (file_lines s) as [|l ls].
  - repeat constructor. simpl. now rewrite E.
  - inversion IH; subst. constructor; [|assumption]. simpl. now rewrite E.
Qed.

(** The loop with its stream and the run over the lines do the same. *)
Lemma load_loop_lines fuel : forall s st,
  (String.length s < fuel)%nat ->
  load_loop fuel (istream_of s) st = load_lines (file_lines s) st.
Proof.
  induction fuel as [|fuel IH]; intros s st Hlen; [lia|].
  cbn [load_loop]. unfold getline.
  cbn [good istream_of buf eofbit failbit orb negb].
  rewrite file_lines_extract.
  pose proof (extract_length nl_char s) as Hx.
  destruct (extract nl_char s) as [a [r|]].
  - cbn [load_lines]. destruct (load_line a st) as [st1|e]; [|reflexivity].
    apply (IH r st1). lia.
  - destruct a as [|c a]; [reflexivity|].
    cbn [load_lines]. destruct (load_line (String c a) st) as [st1|e];
      [|reflexivity].
    destruct fuel; reflexivity.
Qed.

(** X1.  [loadTasksFromFile] runs the body of its loop once on each line
    of the file, in order, a line being what stands before a line feed;
    text after the last line feed is a line too, and a file that ends on a
    line feed has no empty last line. *)
Theorem load_reads_line_by_line :
  (forall st content,
     file st = Some content ->
     loadTasksFromFile st = load_lines (file_lines content) st) /\
  (forall ls tail,
     Forall (fun l => contains nl_char l = false) ls ->
     contains nl_char tail = false ->
     file_lines (unlines ls ++ tail) =
       (ls ++ match tail with EmptyString => [] | _ => [tail] end)%list).
Proof.
  split.
  - intros st content E. unfold loadTasksFromFile. rewrite E.
    apply load_loop_lines. lia.
  - intros ls tail Hls Ht. rewrite file_lines_unlines by assumption.
    f_equal. rewrite file_lines_extract, extract_all by assumption.
    now destruct tail.
Qed.

Lemma load_reads_line_by_line_witness :
  file_lines (unlines ["1|A|0"; ""; "2|B|1"] ++ "3|C|0")
    = ["1|A|0"; ""; "2|B|1"; "3|C|0"] /\
  loadTasksFromFile (initial (Some ("1|A|0" ++ nl ++ nl ++ "7|B|1")))
    = load_lines ["1|A|0"; ""; "7|B|1"] (initial (Some ("1|A|0" ++ nl ++ nl ++ "7|B|1"))).
Proof.
  split.
  - refine (proj2 load_reads_line_by_line ["1|A|0"; ""; "2|B|1"] "3|C|0" _ _).
    + repeat constructor.
    + reflexivity.
  - exact (proj1 load_reads_line_by_line
             (initial (Some ("1|A|0" ++ nl ++ nl ++ "7|B|1"))) _ eq_refl).
Defined.

Lemma load_lines_ok ls : forall st,
  (exists st', load_lines ls st = Ok st') <-> forallb line_loads ls = true.
Proof.
  induction ls as [|line ls IH]; intros st; cbn [load_lines forallb].
  - split; [reflexivity | now exists st].
  - rewrite load_line_cases. unfold line_loads.
    destruct (split_line line) as [[[a b] c]|].
    + destruct (stoi a) as [id|e]; cbn [andb].
      * apply IH.
      * split; [intros (st' & H); discriminate | discriminate].
    + apply IH.
Qed.


Lemma extract_split d s :
  let (a, rest) := extract d s in
  contains d a = false /\
  match rest with
  | Some r => s = a ++ String d r /\ contains d s = true
  | None => s = a
  end.
Proof.
  induction s as [|c s IH]; simpl; [now split|].
  destruct (Ascii.eqb c d) eqn:E.
  - apply Ascii.eqb_eq in E as ->. now repeat split.
  - destruct (extract d s) as [a [r|]]; simpl; rewrite E; simpl.
    + destruct IH as (Ha & -> & Hs). repeat split; try assumption.
    + destruct IH as (Ha & ->). now split.
Qed.

Lemma contains_extract c d s :
  contains c s = false ->
  let (a, rest) := extract d s in
  contains c a = false /\
  match rest with Some r => contains c r = false | None => True end.
Proof.
  intros H. pose proof (extract_split d s) as Hx.
  destruct (extract d s) as [a [r|]].
  - destruct Hx as (_ & -> & _). rewrite contains_app in H.
    apply orb_false_iff in H as (Ha & Hr). simpl in Hr.
    apply orb_false_iff in Hr as (_ & Hr). now split.
  - destruct Hx as (_ & ->). now split.
Qed.

(** What passing the condition of the [if] says of a line. *)
Lemma split_line_inv line a b c :
  split_line line = Some (a, b, c) ->
  exists r1 r2,
    extract bar line = (a, Some r1) /\ extract bar r1 = (b, Some r2) /\
    fst (extract nl_char r2) = c.
Proof.
  unfold split_line, getline.
  cbn [good istream_of buf eofbit failbit orb negb].
  destruct (extract bar line) as [a' [r1|]] eqn:E1.
  - cbn [good buf eofbit failbit orb negb].
    destruct (extract bar r1) as [b' [r2|]] eqn:E2.
    + cbn [good buf eofbit failbit orb negb].
      destruct (extract nl_char r2) as [c' [r3|]] eqn:E3.
      * intros [= <- <- <-]. exists r1, r2. now rewrite E2, E3.
      * destruct c'; [discriminate|]. intros [= <- <- <-].
        exists r1, r2. now rewrite E2, E3.
    + destruct b'; cbn; discriminate.
  - destruct a'; cbn; discriminate.
Qed.

(** The description of a record that has been loaded holds no delimiter,
    and no line feed when the line has none. *)
Lemma split_line_desc line a b c :
  split_line line = Some (a, b, c) ->
  contains nl_char line = false ->
  contains bar b = false /\ contains nl_char b = false.
Proof.
  intros H Hnl. apply split_line_inv in H as (r1 & r2 & E1 & E2 & _).
  pose proof (contains_extract nl_char bar line Hnl) as H1.
  rewrite E1 in H1. destruct H1 as (_ & Hr1).
  pose proof (contains_extract nl_char bar r1 Hr1) as H2.
  rewrite E2 in H2. destruct H2 as (Hb & _).
  pose proof (extract_split bar r1) as H3. rewrite E2 in H3.
  now destruct H3 as (Hbar & _).
Qed.

Lemma load_lines_state ls : forall st st',
  Forall (fun l => contains nl_char l = false) ls ->
  load_lines ls st = Ok st' ->
  exists new,
    tasks st' = (tasks st ++ new)%list /\ Forall storable new /\
    (length new <= length ls)%nat /\
    file st' = file st /\ writes st' = writes st /\ cout st' = cout st.
Proof.
  induction ls as [|line ls IH]; intros st st' Hls; cbn [load_lines].
  - intros [= <-]. exists []. rewrite app_nil_r. now repeat split.
  - inversion Hls as [|? ? Hl Hls']; subst. rewrite load_line_cases.
    destruct (split_line line) as [[[a b] c]|] eqn:Es.
    + destruct (stoi a) as [id|e] eqn:Eid; [|discriminate].
      intros H. apply IH in H as (new & Ht & Hs & Hlen & Hf & Hw & Hc);
        [|assumption].
      exists (mkTask id b (String.eqb c "1") :: new).
      cbn [loaded tasks file writes cout] in *.
      rewrite <- app_assoc in Ht. cbn [length].
      split; [assumption|]. split; [|split; [lia | now repeat split]].
      constructor; [|assumption].
      destruct (split_line_desc _ _ _ _ Es Hl) as (Hb1 & Hb2).
      split; [now apply stoi_in_range with a | now split].
    + intros H. apply IH in H as (new & Ht & Hs & Hlen & Hrest); [|assumption].
      exists new. cbn [length]. repeat split; try tauto. lia.
Qed.

Lemma load_state st st' :
  loadTasksFromFile st = Ok st' ->
  exists new,
    tasks st' = (tasks st ++ new)%list /\ Forall storable new /\
    file st' = file st /\ writes st' = writes st /\ cout st' = cout st.
Proof.
  unfold loadTasksFromFile. destruct (file st) as [content|] eqn:E.
  - rewrite load_loop_lines by lia. intros H.
    apply load_lines_state in H as (new & Ht & Hs & _ & Hrest);
      [|apply file_lines_no_nl].
    exists new. intuition congruence.
  - intros [= <-]. exists []. rewrite app_nil_r. repeat split; auto.
Qed.

(** X3.  [loadTasksFromFile] only reads: when it runs to its end, the
    tasks that were in the vector are still there, in front of those it
    has loaded; the file is as it was, it has not been opened for writing
    and nothing has been printed.  Every task it has loaded has an id
    within [int] and a description without delimiter or line feed. *)
Theorem load_only_appends st st' :
  loadTasksFromFile st = Ok st' ->
  exists new,
    tasks st' = (tasks st ++ new)%list /\ Forall storable new /\
    file st' = file st /\ writes st' = writes st /\ cout st' = cout st.
Proof.
  unfold loadTasksFromFile. destruct (file st) as [content|] eqn:E.
  - rewrite load_loop_lines by lia. intros H.
    pose proof (file_lines_no_nl content) as Hnl.
    destruct (load_lines_state _ _ _ Hnl H)
      as (new & Ht & Hs & _ & Hf & Hw & Hc).
    exists new. rewrite Hf, E. now repeat split.
  - intros [= <-]. exists []. rewrite app_nil_r.
    split; [reflexivity|]. split; [constructor|].
    split; [exact E|]. split; reflexivity.
Qed.

Lemma load_only_appends_witness :
  exists st' new,
    loadTasksFromFile
      (set_tasks [mkTask 9 "kept" true] (initial (Some ("1|A|0" ++ nl))))
      = Ok st' /\
    tasks st' = ([mkTask 9 "kept" true] ++ new)%list /\ Forall storable new /\
    file st' = Some ("1|A|0" ++ nl).
Proof.
  eexists.
  destruct (load_only_appends
              (set_tasks [mkTask 9 "kept" true] (initial (Some ("1|A|0" ++ nl))))
              _ eq_refl) as (new & Ht & Hs & Hf & _).
  exists new. split; [reflexivity | split; [exact Ht | split; [exact Hs | exact Hf]]].
Defined.

Lemma split_not_single d c r :
  split d (String c r) <> [EmptyString].
Proof.
  simpl. destruct (Ascii.eqb c d).
  - pose proof (split_length d r) as Hl. intros [= Hr]. rewrite Hr in Hl.
    simpl in Hl. lia.
  - destruct (split d r); discriminate.
Qed.

(** The three [std::getline] of the loop pass exactly on the lines that
    split into three fields or more and do not end on their second
    delimiter; the string handed to [std::stoi] is then the first
    field. *)
Lemma line_loads_accepted line :
  contains nl_char line = false -> line_loads line = line_accepted line.
Proof.
  intros Hnl. unfold line_loads, line_accepted, id_field.
  unfold split_line, getline at 1.
  cbn [good istream_of buf eofbit failbit orb negb].
  rewrite split_extract.
  pose proof (contains_extract nl_char bar line Hnl) as H1.
  destruct (extract bar line) as [a [r1|]]; [|now destruct a].
  destruct H1 as (_ & Hr1).
  unfold getline at 1. cbn [good buf eofbit failbit orb negb].
  rewrite (split_extract bar r1).
  pose proof (contains_extract nl_char bar r1 Hr1) as H2.
  destruct (extract bar r1) as [b [r2|]]; [|now destruct b].
  destruct H2 as (_ & Hr2).
  unfold getline. cbn [good buf eofbit failbit orb negb].
  rewrite extract_all by assumption.
  destruct r2 as [|c r2]; [reflexivity|].
  pose proof (split_not_single bar c r2) as Hs.
  pose proof (split_length bar (String c r2)) as Hl.
  destruct (split bar (String c r2)) as [|f3 rest]; [simpl in Hl; lia|].
  destruct f3 as [|x f3]; [|reflexivity].
  destruct rest; [congruence | reflexivity].
Qed.

Lemma forallb_accepted ls :
  Forall (fun l => contains nl_char l = false) ls ->
  forallb line_loads ls = forallb line_accepted ls.
Proof.
  induction 1 as [|l ls Hl _ IH]; [reflexivity|].
  simpl. now rewrite IH, line_loads_accepted.
Qed.

(** X2.  Loading a file runs to its end exactly when, on every line that
    splits at the delimiter into three fields or more and does not end on
    its second delimiter, [std::stoi] accepts the first field; otherwise
    the exception ends the process.  Lines with fewer fields never stop
    the loading, whatever they hold. *)
Theorem load_succeeds_iff st content :
  file st = Some content ->
  ((exists st', loadTasksFromFile st = Ok st') <->
   forallb line_accepted (file_lines content) = true).
Proof.
  intros E. unfold loadTasksFromFile. rewrite E.
  rewrite load_loop_lines by lia.
  rewrite <- forallb_accepted by apply file_lines_no_nl.
  apply load_lines_ok.
Qed.

Lemma load_succeeds_iff_witness :
  (exists st',
     loadTasksFromFile (initial (Some ("1|A|0" ++ nl ++ "junk" ++ nl))) = Ok st') /\
  ~ (exists st',
     loadTasksFromFile (initial (Some ("1|A|0" ++ nl ++ "x|B|1" ++ nl))) = Ok st').
Proof.
  split.
  - apply (load_succeeds_iff (initial (Some ("1|A|0" ++ nl ++ "junk" ++ nl))) _
             eq_refl). reflexivity.
  - intros H.
    apply (load_succeeds_iff (initial (Some ("1|A|0" ++ nl ++ "x|B|1" ++ nl))) _
             eq_refl) in H. discriminate H.
Defined.

(* ================================================================== *)
(** * Further properties: saving, then loading *)
(* ================================================================== *)

Lemma encode_tasks_unlines l : encode_tasks l = unlines (map encode_task l).
Proof. induction l as [|t l IH]; simpl; [reflexivity | now rewrite IH]. Qed.

Lemma reload_storable t : storable t -> reload_task t = t.
Proof.
  intros (_ & Hbar & _). unfold reload_task.
  rewrite extract_all, Hbar by assumption. now destruct t.
Qed.

(** A line written by [saveTasksToFile], read by the loop of
    [loadTasksFromFile]. *)
Lemma load_line_written t st :
  in_range (getId t) -> contains nl_char (getDescription t) = false ->
  load_line (encode_task t) st =
    Ok (loaded (getId t) (getDescription (reload_task t))
          (isCompleted (reload_task t)) st).
Proof.
  intros Hid Hnl. rewrite load_line_cases.
  unfold encode_task, reload_task. cbn [String.concat getDescription isCompleted].
  pose proof (extract_split bar (getDescription t)) as Hx.
  destruct (extract bar (getDescription t)) as [a [b|]]; cbn [fst].
  - destruct Hx as (Ha & E & Hc). rewrite Hc, E.
    rewrite E, contains_app in Hnl. apply orb_false_iff in Hnl as (Hna & Hnb).
    simpl in Hnb.
    change (a ++ String bar b) with (a ++ "|" ++ b).
    replace (to_string (getId t) ++ "|" ++ (a ++ "|" ++ b) ++ "|"
               ++ flag (isCompleted t))
      with (to_string (getId t) ++ "|" ++ a ++ "|"
              ++ (b ++ "|" ++ flag (isCompleted t)))
      by (now rewrite !append_assoc).
    rewrite split_line_fields.
    + rewrite stoi_to_string by assumption.
      destruct (String.eqb_spec (b ++ "|" ++ flag (isCompleted t)) "1") as [E1|_];
        [|reflexivity].
      assert (Hb : contains bar (b ++ "|" ++ flag (isCompleted t)) = true).
      { rewrite contains_app. simpl. apply orb_true_r. }
      rewrite E1 in Hb. discriminate Hb.
    + apply to_string_contains; [reflexivity | discriminate].
    + assumption.
    + rewrite contains_app, Hnb. now destruct (isCompleted t).
    + destruct b; discriminate.
  - destruct Hx as (Ha & E). rewrite <- E in *. rewrite Ha.
    rewrite split_line_fields.
    + now rewrite stoi_to_string, flag_eqb.
    + apply to_string_contains; [reflexivity | discriminate].
    + assumption.
    + now destruct (isCompleted t).
    + destruct (isCompleted t); discriminate.
Qed.

Lemma load_lines_written l : forall st,
  Forall (fun t => in_range (getId t) /\
                   contains nl_char (getDescription t) = false) l ->
  exists st',
    load_lines (map encode_task l) st = Ok st' /\
    tasks st' = (tasks st ++ map reload_task l)%list.
Proof.
  induction l as [|t l IH]; intros st Hl; cbn [map load_lines].
  - exists st. now rewrite app_nil_r.
  - inversion Hl as [|? ? (Hid & Hnl) Hl']; subst.
    rewrite load_line_written by assumption.
    destruct (IH (loaded (getId t) (getDescription (reload_task t))
                    (isCompleted (reload_task t)) st) Hl') as (st' & E & Ht).
    exists st'. split; [assumption|]. rewrite Ht. cbn [loaded tasks].
    now rewrite <- app_assoc.
Qed.

Lemma save_load l st :
  tasks st = l ->
  Forall (fun t => in_range (getId t) /\
                   contains nl_char (getDescription t) = false) l ->
  exists st',
    loadTasksFromFile (initial (file (saveTasksToFile st))) = Ok st' /\
    tasks st' = map reload_task l.
Proof.
  intros <- Hl. unfold loadTasksFromFile. rewrite file_save. cbn [file initial].
  rewrite load_loop_lines by lia.
  rewrite encode_tasks_unlines, <- (append_nil_r (unlines _)).
  rewrite file_lines_unlines.
  - simpl file_lines. rewrite app_nil_r. now apply load_lines_written.
  - rewrite Forall_forall. intros line Hin.
    apply in_map_iff in Hin as (t & <- & Ht).
    rewrite Forall_forall in Hl. apply encode_task_no_nl, Hl, Ht.
Qed.

(** X4.  What saving and loading again does to any vector of tasks whose
    descriptions hold no line feed: every task comes back, in order, with
    its id; a description without delimiter comes back whole, with the
    completed flag; a description with a delimiter comes back cut before
    its first delimiter, and the task comes back not completed. *)
Theorem save_then_load_cuts_descriptions st :
  Forall (fun t => in_range (getId t) /\
                   contains nl_char (getDescription t) = false) (tasks st) ->
  exists st',
    loadTasksFromFile (initial (file (saveTasksToFile st))) = Ok st' /\
    tasks st' = map reload_task (tasks st).
Proof.
  intros Hl. unfold loadTasksFromFile. rewrite file_save. cbn [file initial].
  rewrite load_loop_lines by lia.
  assert (Hlines : file_lines (encode_tasks (tasks st))
                   = map encode_task (tasks st)).
  { rewrite encode_tasks_unlines, <- (append_nil_r (unlines _)).
    rewrite file_lines_unlines; [simpl; apply app_nil_r|].
    rewrite Forall_forall. intros line Hin.
    apply in_map_iff in Hin as (t & <- & Ht).
    rewrite Forall_forall in Hl. apply encode_task_no_nl, Hl, Ht. }
  rewrite Hlines.
  destruct (load_lines_written (tasks st)
              (initial (Some (encode_tasks (tasks st)))) Hl) as (st' & E & Ht).
  exists st'. split; [exact E | exact Ht].
Qed.

Lemma save_then_load_cuts_descriptions_witness :
  exists st',
    loadTasksFromFile
      (initial (file (saveTasksToFile
         (set_tasks [mkTask 1 "buy milk|eggs" true; mkTask 2 "B" true]
            (initial None))))) = Ok st' /\
    tasks st' = [mkTask 1 "buy milk" false; mkTask 2 "B" true].
Proof.
  refine (save_then_load_cuts_descriptions
            (set_tasks [mkTask 1 "buy milk|eggs" true; mkTask 2 "B" true]
               (initial None)) _).
  repeat constructor; unfold INT_MIN, INT_MAX; simpl; lia.
Defined.

(** X5.  Whatever the file held, the tasks [loadTasksFromFile] makes of it
    at the start of the process survive being saved and loaded again
    unchanged. *)
Theorem loaded_tasks_round_trip f st :
  loadTasksFromFile (initial f) = Ok st -> round_trips st.
Proof.
  intros H. apply load_state in H as (new & Ht & Hs & _).
  simpl in Ht. subst new.
  destruct (save_load (tasks st) st eq_refl) as (st' & E & Ht).
  - eapply Forall_impl; [|exact Hs]. intros t (Hid & _ & Hnl). now split.
  - exists st'. split; [assumption|]. rewrite Ht.
    clear E Ht. induction Hs as [|t l Hst _ IH]; [reflexivity|].
    simpl. now rewrite reload_storable, IH.
Qed.

Lemma loaded_tasks_round_trip_witness :
  exists st,
    loadTasksFromFile
      (initial (Some (" 7x|a|1|b" ++ nl ++ "skipped" ++ nl ++ "3||yes")))
      = Ok st /\
    tasks st = [mkTask 7 "a" false; mkTask 3 "" false] /\
    round_trips st.
Proof.
  eexists. split; [reflexivity|]. split; [reflexivity|].
  exact (loaded_tasks_round_trip
           (Some (" 7x|a|1|b" ++ nl ++ "skipped" ++ nl ++ "3||yes")) _ eq_refl).
Defined.

(* ================================================================== *)
(** * Further properties: the id field *)
(* ================================================================== *)

Lemma skip_ws_app ws s : all_space ws = true -> skip_ws (ws ++ s) = skip_ws s.
Proof.
  induction ws as [|c ws IH]; simpl; [reflexivity|].
  intros H. apply andb_true_iff in H as (-> & H). auto.
Qed.

Lemma all_space_contains c ws :
  all_space ws = true -> isspace c = false -> contains c ws = false.
Proof.
  intros Hws Hc. induction ws as [|a ws IH]; simpl in *; [reflexivity|].
  apply andb_true_iff in Hws as (Ha & Hws).
  destruct (Ascii.eqb_spec a c) as [->|_]; [congruence | auto].
Qed.

Lemma digits_value_stop ds r :
  all_digits ds = true -> no_digit_ahead r = true ->
  forall acc, digits_value acc (ds ++ r) = digits_value acc ds.
Proof.
  intros Hds Hr. induction ds as [|c ds IH]; intros acc.
  - destruct r as [|c r]; [reflexivity|]. simpl in *.
    now destruct (digit_val c).
  - simpl in *. destruct (digit_val c); [auto | discriminate].
Qed.

(** [std::stoi] stops at the first character that is not a digit. *)
Lemma stoi_prefix z r :
  in_range z -> no_digit_ahead r = true -> stoi (to_string z ++ r) = Ok z.
Proof.
  intros Hz Hr. destruct (to_string_spec z) as (c & ds & E & Hds & Hv).
  assert (Hc : digit_val c <> None).
  { simpl in Hds. destruct (digit_val c); discriminate. }
  assert (Hval : digits_value 0 (String c (ds ++ r)) = Z.abs z).
  { change (String c (ds ++ r)) with (String c ds ++ r).
    now rewrite digits_value_stop. }
  apply in_rangeb_iff in Hz.
  rewrite E. destruct (Z.ltb_spec z 0) as [Hneg|Hpos]; simpl append.
  - rewrite stoi_minus_digit by assumption. cbv zeta. rewrite Hval.
    replace (- Z.abs z) with z by lia. now rewrite Hz.
  - rewrite stoi_digit by assumption. cbv zeta. rewrite Hval.
    replace (Z.abs z) with z by lia. now rewrite Hz.
Qed.

Lemma stoi_padded ws z r :
  all_space ws = true -> in_range z -> no_digit_ahead r = true ->
  stoi (ws ++ to_string z ++ r) = Ok z.
Proof.
  intros Hws Hz Hr. rewrite <- (stoi_prefix z r Hz Hr).
  unfold stoi. now rewrite skip_ws_app.
Qed.

(** X6.  The first field of a line need not be a bare number: white space
    before the number and any text after it that does not go on with a
    digit are dropped, and the record is loaded with the number as id. *)
Theorem id_field_is_read_leniently ws z junk b c st :
  all_space ws = true -> in_range z ->
  no_digit_ahead junk = true -> contains bar junk = false ->
  contains bar b = false -> contains nl_char c = false -> c <> EmptyString ->
  load_line (ws ++ to_string z ++ junk ++ "|" ++ b ++ "|" ++ c) st =
    Ok (loaded z b (String.eqb c "1") st).
Proof.
  intros Hws Hz Hj Hjb Hb Hc Hne. rewrite load_line_cases.
  replace (ws ++ to_string z ++ junk ++ "|" ++ b ++ "|" ++ c)
    with ((ws ++ to_string z ++ junk) ++ "|" ++ b ++ "|" ++ c)
    by (now rewrite !append_assoc).
  rewrite split_line_fields; try assumption.
  - now rewrite stoi_padded.
  - rewrite !contains_app, Hjb.
    rewrite all_space_contains by (assumption || reflexivity).
    rewrite to_string_contains by (reflexivity || discriminate). reflexivity.
Qed.

Lemma id_field_is_read_leniently_witness :
  load_line ("  " ++ to_string 12 ++ "abc" ++ "|" ++ "x" ++ "|" ++ "1")
    (initial None)
  = Ok (loaded 12 "x" true (initial None)).
Proof.
  refine (id_field_is_read_leniently "  " 12 "abc" "x" "1" (initial None)
            eq_refl _ eq_refl eq_refl eq_refl eq_refl _).
  - unfold in_range, INT_MIN, INT_MAX. lia.
  - discriminate.
Defined.

(* ================================================================== *)
(** * Further properties: the file follows the vector *)
(* ================================================================== *)

(** A command either leaves the store as it is, or rewrites the file with
    the vector it leaves. *)
Lemma dispatch_sync c st :
  same_store st (dispatch c st) \/
  (writes (dispatch c st) = S (writes st) /\
   file (dispatch c st) = Some (encode_tasks (tasks (dispatch c st)))).
Proof.
  assert (Hsame : forall s st0, same_store st0 (print s st0))
    by (intros; now repeat split).
  destruct c as [d| |input|input|input d]; cbn [dispatch].
  - right. unfold addTask. cbn [Task_new].
    split; [reflexivity | now rewrite file_save].
  - left. unfold viewTasks. destruct (is_empty (tasks st)); apply Hsame.
  - unfold toggleTaskComplete.
    destruct (is_empty (tasks st)); [left; apply Hsame|].
    destruct input as [id|]; [|left; now repeat split].
    cbn [print tasks].
    destruct (update_first id _ (tasks st)) as [[l t]|];
      [right | left; now repeat split].
    split; [reflexivity | now rewrite file_save].
  - unfold deleteTask.
    destruct (is_empty (tasks st)); [left; apply Hsame|].
    destruct input as [id|]; [|left; now repeat split].
    cbn [print tasks].
    destruct (erase_first id (tasks st)) as [l|];
      [right | left; now repeat split].
    split; [reflexivity | now rewrite file_save].
  - unfold editTask.
    destruct (is_empty (tasks st)); [left; apply Hsame|].
    destruct input as [id|]; [|left; now repeat split].
    cbn [print tasks].
    destruct (update_first id _ (tasks st)) as [[l t]|];
      [right | left; now repeat split].
    split; [reflexivity | now rewrite file_save].
Qed.

Lemma turn_sync c st :
  same_store st (turn st c) \/
  (writes (turn st c) = S (writes st) /\
   file (turn st c) = Some (encode_tasks (tasks (turn st c)))).
Proof.
  unfold turn. destruct (dispatch_sync c (printMenu st)) as [H|H];
    [left; exact H | right; exact H].
Qed.

(** Through a run of commands: nothing has been written and the store is
    the one the run started from, or the file has been written and holds
    the vector. *)
Lemma run_sync st0 cmds : forall st,
  (writes st = O /\ same_store st0 st) \/
  ((0 < writes st)%nat /\ file st = Some (encode_tasks (tasks st))) ->
  (writes (fold_left turn cmds st) = O /\
   same_store st0 (fold_left turn cmds st)) \/
  ((0 < writes (fold_left turn cmds st))%nat /\
   file (fold_left turn cmds st)
     = Some (encode_tasks (tasks (fold_left turn cmds st)))).
Proof.
  induction cmds as [|c cmds IH]; intros st H; [assumption|].
  cbn [fold_left]. apply IH.
  destruct (turn_sync c st) as [(Ht & Hn & Hf & Hw)|(Hw & Hf)].
  - destruct H as [(H0 & Ht0 & Hn0 & Hf0 & Hw0)|(Hpos & Hsync)].
    + left. split; [congruence|]. unfold same_store.
      repeat split; congruence.
    + right. split; [lia|]. now rewrite Hf, Ht.
  - right. split; [lia | assumption].
Qed.

(** X7.  No command leaves the vector and the file apart.  One turn of
    the menu either leaves the vector, the counter and the file as they
    were, without opening the file, or opens the file once and leaves in
    it one record for each task of the vector it leaves, in order.  So at
    the end of a session either the file has never been opened for
    writing, and then file, vector and counter are still those the
    process had once the file was loaded; or the file has been written
    and holds exactly the vector. *)
Theorem file_follows_vector :
  (forall c st,
     same_store st (turn st c) \/
     (writes (turn st c) = S (writes st) /\
      file (turn st c) = Some (encode_tasks (tasks (turn st c))))) /\
  (forall f cmds st,
     main f cmds = Ok st ->
     exists st0,
       loadTasksFromFile (initial f) = Ok st0 /\ file st0 = f /\
       ((writes st = O /\ same_store st0 st) \/
        ((0 < writes st)%nat /\ file st = Some (encode_tasks (tasks st))))).
Proof.
  split; [exact turn_sync|].
  intros f cmds st. unfold main.
  destruct (loadTasksFromFile (initial f)) as [st0|e] eqn:E; [|discriminate].
  intros [= <-]. exists st0.
  pose proof (load_state _ _ E) as (_ & _ & _ & Hf & Hw & _).
  split; [reflexivity | split; [exact Hf|]].
  cbn [print printMenu writes file tasks].
  destruct (run_sync st0 cmds st0) as [(H0 & Hs)|H].
  - left. split; [exact Hw | now repeat split].
  - left. split; [exact H0|]. exact Hs.
  - right. exact H.
Qed.

Lemma file_follows_vector_witness :
  exists st,
    main (Some ("1|A|0")) [Toggle (Some 5); Add "B"; Edit (Some 1) "A|2"]
      = Ok st /\
    file st = Some (encode_tasks (tasks st)) /\
    file st = Some ("1|A|2|0" ++ nl ++ "2|B|0" ++ nl).
Proof.
  eexists. split; [reflexivity|].
  destruct (proj2 file_follows_vector (Some "1|A|0")
              [Toggle (Some 5); Add "B"; Edit (Some 1) "A|2"] _ eq_refl)
    as (st0 & _ & _ & [(Hw & _)|(_ & Hf)]).
  - discriminate Hw.
  - split; [exact Hf | reflexivity].
Defined.

(* ================================================================== *)
(** * Further properties: deleting *)
(* ================================================================== *)

Lemma delete_at i st l1 t l2 :
  tasks st = (l1 ++ t :: l2)%list -> getId t = i -> ~ In i (ids l1) ->
  tasks (deleteTask (Some i) st) = (l1 ++ l2)%list /\
  nextId (deleteTask (Some i) st) = nextId st /\
  file (deleteTask (Some i) st) = Some (encode_tasks (l1 ++ l2)) /\
  writes (deleteTask (Some i) st) = S (writes st).
Proof.
  intros E Ht H1. unfold deleteTask. rewrite E, is_empty_app.
  cbn [print tasks]. rewrite E, erase_first_at by assumption.
  repeat split. now rewrite file_save.
Qed.

(** X8.  In a store that holds a task with id [i], [deleteTask] takes out
    the first such task and no other, keeps the order of the rest, leaves
    the counter alone and rewrites the file without the task.  When the
    ids of the store are pairwise distinct, the id is gone from the
    store. *)
Theorem delete_removes_first_match i st :
  In i (ids (tasks st)) ->
  exists l1 t l2,
    tasks st = (l1 ++ t :: l2)%list /\ getId t = i /\ ~ In i (ids l1) /\
    tasks (deleteTask (Some i) st) = (l1 ++ l2)%list /\
    nextId (deleteTask (Some i) st) = nextId st /\
    file (deleteTask (Some i) st) = Some (encode_tasks (l1 ++ l2)) /\
    (NoDup (ids (tasks st)) -> ~ In i (ids (tasks (deleteTask (Some i) st)))).
Proof.
  intros H. destruct (first_occurrence i _ H) as (l1 & t & l2 & E & Ht & H1).
  destruct (delete_at i st l1 t l2 E Ht H1) as (Hd & Hn & Hf & _).
  exists l1, t, l2. repeat split; try assumption.
  rewrite Hd, E. unfold ids. rewrite !map_app. cbn [map]. rewrite Ht.
  apply NoDup_remove_2.
Qed.

Lemma delete_removes_first_match_witness :
  exists l1 t l2,
    [mkTask 1 "A" false; mkTask 2 "B" true; mkTask 3 "C" false]
      = (l1 ++ t :: l2)%list /\ getId t = 2 /\
    tasks (deleteTask (Some 2)
             (set_tasks [mkTask 1 "A" false; mkTask 2 "B" true;
                         mkTask 3 "C" false] (initial None)))
      = (l1 ++ l2)%list /\
    ~ In 2 (ids (tasks (deleteTask (Some 2)
             (set_tasks [mkTask 1 "A" false; mkTask 2 "B" true;
                         mkTask 3 "C" false] (initial None))))).
Proof.
  destruct (delete_removes_first_match 2
              (set_tasks [mkTask 1 "A" false; mkTask 2 "B" true;
                          mkTask 3 "C" false] (initial None)))
    as (l1 & t & l2 & E & Ht & _ & Hd & _ & _ & Hnd).
  - simpl. right. left. reflexivity.
  - exists l1, t, l2. split; [exact E | split; [exact Ht | split; [exact Hd|]]].
    apply Hnd. simpl.
    constructor; [intros [H|[H|[]]]; discriminate H|].
    constructor; [intros [H|[]]; discriminate H|].
    constructor; [intros []|constructor].
Defined.

Lemma turn_nextId c st :
  nextId (turn st c) =
    match c with Add _ => Int.succ (nextId st) | _ => nextId st end.
Proof.
  unfold turn. destruct c as [d| |input|input|input d]; cbn [dispatch].
  - reflexivity.
  - unfold viewTasks. now destruct (is_empty _).
  - exact (proj2 (toggle_ids input (printMenu st))).
  - exact (proj1 (delete_ids input (printMenu st))).
  - exact (proj2 (edit_ids input d (printMenu st))).
Qed.

(** The only id a command can bring into the store is the counter. *)
Lemma turn_ids_incl c st j :
  In j (ids (tasks (turn st c))) ->
  In j (ids (tasks st)) \/ j = nextId st.
Proof.
  unfold turn. destruct c as [d| |input|input|input d]; cbn [dispatch].
  - cbn. unfold ids. rewrite map_app, in_app_iff. cbn.
    intros [H|[H|[]]]; [now left | now right].
  - unfold viewTasks. destruct (is_empty _); now left.
  - destruct (toggle_ids input (printMenu st)) as (-> & _). now left.
  - destruct (delete_ids input (printMenu st))
      as (_ & [->|(l1 & t & l2 & E & ->)]); [now left|].
    cbn [printMenu print tasks] in E. rewrite E. unfold ids.
    rewrite !map_app, !in_app_iff. cbn. tauto.
  - destruct (edit_ids input d (printMenu st)) as (-> & _). now left.
Qed.

Lemma run_fresh i cmds : forall st,
  in_range (nextId st) -> i < nextId st -> ~ In i (ids (tasks st)) ->
  nextId st + Z.of_nat (count_adds cmds) <= INT_MAX ->
  ~ In i (ids (tasks (fold_left turn cmds st))).
Proof.
  induction cmds as [|c cmds IH]; intros st Hr Hlt Hni Hb; [assumption|].
  cbn [fold_left]. rewrite count_adds_cons in Hb.
  assert (Hn : nextId (turn st c) = nextId st + Z.of_nat (count_adds [c])).
  { rewrite turn_nextId. destruct c; cbn [count_adds]; try lia.
    cbn [count_adds] in Hb. apply succ_small; [assumption | lia]. }
  apply IH.
  - unfold in_range in *. lia.
  - lia.
  - intros H. apply turn_ids_incl in H as [H|H]; [tauto | lia].
  - lia.
Qed.

(** X9.  Ids are not given twice: in a store whose ids are pairwise
    distinct and below the counter, once the task with id [i] has been
    deleted no later command brings a task with id [i] into the store, as
    long as the counter stays within [int]: the counter plus the number
    of calls of [addTask] that follow does not exceed [INT_MAX]. *)
Theorem deleted_id_never_comes_back i st cmds :
  distinct_below st -> In i (ids (tasks st)) ->
  nextId st + Z.of_nat (count_adds cmds) <= INT_MAX ->
  ~ In i (ids (tasks (fold_left turn cmds (deleteTask (Some i) st)))).
Proof.
  intros (Hnd & Hr & Hb) Hi Hlen.
  destruct (first_occurrence i _ Hi) as (l1 & t & l2 & E & Ht & H1).
  destruct (delete_at i st l1 t l2 E Ht H1) as (Hd & Hn & _).
  apply run_fresh; rewrite ?Hn; try assumption.
  - rewrite Forall_forall in Hb. now apply Hb.
  - rewrite Hd. rewrite E in Hnd. unfold ids in *.
    rewrite !map_app in *. cbn [map] in Hnd. rewrite Ht in Hnd.
    now apply NoDup_remove_2.
Qed.

Lemma deleted_id_never_comes_back_witness :
  ~ In 2 (ids (tasks (fold_left turn
      [View; Add "C"; Toggle (Some 1); Delete (Some 1); Edit (Some 7) "D"]
      (deleteTask (Some 2)
         {| tasks := [mkTask 1 "A" false; mkTask 2 "B" true];
            nextId := 2147483646; file := None; writes := O;
            cout := "" |})))).
Proof.
  apply deleted_id_never_comes_back.
  - split; [|split].
    + simpl. constructor; [intros [H|[]]; discriminate H|].
      constructor; [intros []|constructor].
    + unfold in_range, INT_MIN, INT_MAX. simpl. lia.
    + simpl. repeat constructor.
  - simpl. right. left. reflexivity.
  - unfold INT_MAX. simpl. lia.
Defined.

(* ================================================================== *)
(** * Further properties: operations that change nothing *)
(* ================================================================== *)

(** X10.  [editTask] on an id that no task of the store has changes
    neither the vector, the counter nor the file, and does not ask for a
    new description: on a store with tasks it ends on the message
    [Task with ID <id> not found.], on the empty store it prints
    [No tasks to edit.] and returns before any id is asked for. *)
Theorem edit_absent_id_changes_nothing id d st :
  ~ In id (ids (tasks st)) ->
  same_store st (editTask (Some id) d st) /\
  (tasks st <> [] -> reports_not_found id (editTask (Some id) d st) = true) /\
  (tasks st = [] ->
     cout (editTask (Some id) d st) = cout st ++ "No tasks to edit." ++ nl).
Proof.
  intros H.
  assert (Hu : update_first id (fun task => setDescription task d) (tasks st)
               = None) by now apply update_first_absent.
  unfold editTask, same_store.
  destruct (is_empty (tasks st)) eqn:Ee.
  - split; [now repeat split|]. split.
    + intros Hne. destruct (tasks st); [congruence | discriminate].
    + reflexivity.
  - cbn [print tasks]. rewrite Hu. split; [now repeat split|]. split.
    + intros _. unfold reports_not_found, print, put. cbn [cout].
      apply ends_with_app.
    + intros E. rewrite E in Ee. discriminate.
Qed.

Lemma edit_absent_id_changes_nothing_witness :
  same_store
    (set_tasks [mkTask 1 "A" false] (initial None))
    (editTask (Some 4) "new" (set_tasks [mkTask 1 "A" false] (initial None))) /\
  reports_not_found 4
    (editTask (Some 4) "new" (set_tasks [mkTask 1 "A" false] (initial None)))
    = true.
Proof.
  destruct (edit_absent_id_changes_nothing 4 "new"
              (set_tasks [mkTask 1 "A" false] (initial None)))
    as (Hs & Hr & _).
  - simpl. intros [H|[]]. discriminate H.
  - split; [exact Hs | apply Hr; discriminate].
Defined.

(** X11.  When [std::cin >> id] fails, [toggleTaskComplete], [deleteTask]
    and [editTask] give up: vector, counter and file are as before, the
    file is not opened, and on a store with tasks the last thing printed
    is [Invalid input.].  [viewTasks] never changes any of them either. *)
Theorem invalid_id_input_changes_nothing d st :
  same_store st (toggleTaskComplete None st) /\
  same_store st (deleteTask None st) /\
  same_store st (editTask None d st) /\
  same_store st (viewTasks st) /\
  (tasks st <> [] ->
     ends_with ("Invalid input." ++ nl) (cout (toggleTaskComplete None st)) = true /\
     ends_with ("Invalid input." ++ nl) (cout (deleteTask None st)) = true /\
     ends_with ("Invalid input." ++ nl) (cout (editTask None d st)) = true).
Proof.
  unfold toggleTaskComplete, deleteTask, editTask, viewTasks, same_store.
  destruct (is_empty (tasks st)) eqn:Ee.
  - repeat split; destruct (tasks st); congruence || discriminate.
  - repeat split; unfold print, put; cbn [cout]; apply ends_with_app.
Qed.

Lemma invalid_id_input_changes_nothing_witness :
  same_store (set_tasks [mkTask 1 "A" false] (initial None))
    (deleteTask None (set_tasks [mkTask 1 "A" false] (initial None))) /\
  ends_with ("Invalid input." ++ nl)
    (cout (deleteTask None (set_tasks [mkTask 1 "A" false] (initial None))))
    = true.
Proof.
  destruct (invalid_id_input_changes_nothing ""
              (set_tasks [mkTask 1 "A" false] (initial None)))
    as (_ & Hs & _ & _ & Hm).
  split; [exact Hs|]. apply Hm. discriminate.
Defined.

(* ================================================================== *)
(** * Further properties: the menu *)
(* ================================================================== *)

Lemma printMenu_cout st : cout (printMenu st) = cout st ++ menu_text.
Proof. reflexivity. Qed.

Lemma getMenuInput_skips bad : forall c rest st,
  Forall (fun a => valid_choice a = false) bad ->
  valid_choice (Some c) = true ->
  exists st',
    getMenuInput (bad ++ Some c :: rest) st = Some (c, rest, st') /\
    same_store st st' /\
    cout st' = cout st ++ times (length bad) (menu_text ++ invalid_choice_msg)
                 ++ menu_text.
Proof.
  induction bad as [|a bad IH]; intros c rest st Hbad Hc.
  - cbn [app getMenuInput]. simpl in Hc. rewrite Hc.
    exists (printMenu st). repeat split.
  - inversion Hbad as [|? ? Ha Hbad']; subst.
    cbn [app getMenuInput length times].
    destruct (IH c rest (print invalid_choice_msg (printMenu st)))
      as (st' & E & (Ht & Hn & Hf & Hw) & Hcout);
      [assumption | assumption |].
    exists st'. split.
    + destruct a as [z|]; [|exact E]. simpl in Ha. rewrite Ha. exact E.
    + split; [now repeat split|].
      rewrite Hcout. cbn [print cout]. unfold put.
      rewrite printMenu_cout. now rewrite !append_assoc.
Qed.

Lemma getMenuInput_none attempts : forall st,
  Forall (fun a => valid_choice a = false) attempts ->
  getMenuInput attempts st = None.
Proof.
  induction attempts as [|a r IH]; intros st H; [reflexivity|].
  inversion H as [|? ? Ha Hr]; subst. cbn [getMenuInput].
  destruct a as [z|]; [simpl in Ha; rewrite Ha|]; now apply IH.
Qed.

(** X12.  [getMenuInput] returns the first selection from 1 to 6 that
    [std::cin] delivers.  For every attempt before it (no number, or a
    number outside 1..6) it prints the menu and [Invalid input. Try
    again.], then the menu once more; the store is not touched.  While no
    attempt is valid it does not return. *)
Theorem getMenuInput_returns_first_valid :
  (forall bad c rest st,
     Forall (fun a => valid_choice a = false) bad ->
     1 <= c <= 6 ->
     exists st',
       getMenuInput (bad ++ Some c :: rest) st = Some (c, rest, st') /\
       same_store st st' /\
       cout st' = cout st
                    ++ times (length bad) (menu_text ++ invalid_choice_msg)
                    ++ menu_text) /\
  (forall attempts st,
     Forall (fun a => valid_choice a = false) attempts ->
     getMenuInput attempts st = None).
Proof.
  split.
  - intros bad c rest st Hbad Hc. apply getMenuInput_skips; [assumption|].
    simpl. apply andb_true_iff. split; apply Z.leb_le; lia.
  - apply getMenuInput_none.
Qed.

Lemma getMenuInput_returns_first_valid_witness :
  exists st',
    getMenuInput ([None; Some 7; Some 0] ++ Some 3 :: [Some 9])
      (initial None) = Some (3, [Some 9], st') /\
    same_store (initial None) st'.
Proof.
  destruct (proj1 getMenuInput_returns_first_valid
              [None; Some 7; Some 0] 3 [Some 9] (initial None))
    as (st' & E & Hs & _).
  - repeat constructor.
  - lia.
  - exists st'. split; [exact E | exact Hs].
Defined.

(* ================================================================== *)
(** * Further properties: operations one after the other *)
(* ================================================================== *)

Lemma toggle_updated i st :
  tasks (toggleTaskComplete (Some i) st) =
    updated i (fun task => setCompleted task (negb (isCompleted task)))
      (tasks st).
Proof.
  unfold toggleTaskComplete, updated.
  destruct (tasks st) as [|a r] eqn:E; cbn [is_empty print tasks].
  - now rewrite E.
  - rewrite E. now destruct (update_first i _ (a :: r)) as [[l t]|].
Qed.

Lemma edit_updated i d st :
  tasks (editTask (Some i) d st) =
    updated i (fun task => setDescription task d) (tasks st).
Proof.
  unfold editTask, updated.
  destruct (tasks st) as [|a r] eqn:E; cbn [is_empty print tasks].
  - now rewrite E.
  - rewrite E. now destruct (update_first i _ (a :: r)) as [[l t]|].
Qed.

Lemma updated_cons i f a r :
  updated i f (a :: r) =
    if getId a =? i then f a :: r else a :: updated i f r.
Proof.
  unfold updated. simpl. destruct (getId a =? i); [reflexivity|].
  now destruct (update_first i f r) as [[l t]|].
Qed.

(** Two in-place changes that keep the id and do not depend on the order
    in which they are made on a task can be made in either order on the
    vector. *)
Lemma updated_comm i j f g :
  (forall t, getId (f t) = getId t) -> (forall t, getId (g t) = getId t) ->
  (forall t, f (g t) = g (f t)) ->
  forall l, updated i f (updated j g l) = updated j g (updated i f l).
Proof.
  intros Hf Hg Hfg. induction l as [|a r IH]; [reflexivity|].
  rewrite (updated_cons j g), (updated_cons i f).
  destruct (getId a =? j) eqn:Ej, (getId a =? i) eqn:Ei;
    rewrite !updated_cons, ?Hf, ?Hg, ?Ei, ?Ej, ?Hfg, ?IH; reflexivity.
Qed.

Lemma updated_twice i f g :
  (forall t, getId (f t) = getId t) ->
  forall l, updated i g (updated i f l) = updated i (fun t => g (f t)) l.
Proof.
  intros Hf. induction l as [|a r IH]; [reflexivity|].
  rewrite (updated_cons i f), (updated_cons i (fun t => g (f t))).
  destruct (getId a =? i) eqn:Ei;
    rewrite updated_cons, ?Hf, ?Ei, ?IH; reflexivity.
Qed.

(** X13.  Editing the same id twice leaves the vector that the second
    edit alone would leave: the last description wins. *)
Theorem edit_twice_keeps_last i d1 d2 st :
  tasks (editTask (Some i) d2 (editTask (Some i) d1 st)) =
  tasks (editTask (Some i) d2 st).
Proof.
  rewrite !edit_updated. rewrite updated_twice by reflexivity. reflexivity.
Qed.

(** X14.  Toggling one id and editing another, or the same one, can be
    done in either order: the vector is the same. *)
Theorem toggle_and_edit_commute i j d st :
  tasks (toggleTaskComplete (Some i) (editTask (Some j) d st)) =
  tasks (editTask (Some j) d (toggleTaskComplete (Some i) st)).
Proof.
  rewrite toggle_updated, !edit_updated, toggle_updated.
  apply updated_comm; reflexivity.
Qed.

(** X15.  Adding a task and deleting it at once gives back the vector
    there was, when no task of the store had the id of the counter; the
    counter itself has moved on, so the id is not given again. *)
Theorem add_then_delete_restores_vector d st :
  ~ In (nextId st) (ids (tasks st)) ->
  tasks (deleteTask (Some (nextId st)) (addTask d st)) = tasks st /\
  nextId (deleteTask (Some (nextId st)) (addTask d st)) = Int.succ (nextId st) /\
  file (deleteTask (Some (nextId st)) (addTask d st))
    = Some (encode_tasks (tasks st)).
Proof.
  intros H.
  destruct (delete_at (nextId st) (addTask d st) (tasks st)
              (mkTask (nextId st) d false) [] eq_refl eq_refl H)
    as (Ht & Hn & Hf & _).
  rewrite app_nil_r in Ht, Hf. repeat split; assumption.
Qed.

Lemma add_then_delete_restores_vector_witness :
  tasks (deleteTask (Some 3)
           (addTask "C" {| tasks := [mkTask 1 "A" false; mkTask 2 "B" true];
                           nextId := 3; file := None; writes := O;
                           cout := "" |}))
    = [mkTask 1 "A" false; mkTask 2 "B" true].
Proof.
  refine (proj1 (add_then_delete_restores_vector "C"
            {| tasks := [mkTask 1 "A" false; mkTask 2 "B" true];
               nextId := 3; file := None; writes := O; cout := "" |} _)).
  simpl. intros [H|[H|[]]]; discriminate H.
Defined.

(* ================================================================== *)
(** * Further properties: the listing *)
(* ================================================================== *)

Lemma fold_show_task l : forall os,
  fold_left show_task l os = os ++ unlines (map listing_entry l).
Proof.
  induction l as [|t l IH]; intros os; cbn [fold_left map unlines].
  - now rewrite append_nil_r.
  - rewrite IH. unfold show_task, put. unfold listing_entry at 2.
    now rewrite !append_assoc.
Qed.

(** X16.  [viewTasks] prints [No tasks to display.] when the vector is
    empty and nothing else; otherwise a header, one entry for each task in
    the order of the vector, marked [[x]] when completed and [[ ]] when
    not, and a footer. *)
Theorem viewTasks_lists_every_task st :
  cout (viewTasks st) =
    cout st ++
    match tasks st with
    | [] => "No tasks to display." ++ nl
    | l => nl ++ "====== TASK LIST ======" ++ nl
              ++ unlines (map listing_entry l)
              ++ "=======================" ++ nl ++ nl
    end.
Proof.
  unfold viewTasks. destruct (tasks st) as [|a r]; [reflexivity|].
  cbn [is_empty print cout]. unfold put, show_tasks.
  now rewrite fold_show_task.
Qed.
